(** * SCTE-35 splice information section decoder

    A shallow embedding of [SCTE35Decoder.py] (class [SCTE35_Parser]) and the
    properties of its bit-level parser.

    The decoder walks a [bitstring.BitString] with a read cursor.  The
    library object is modelled by its bit array and its [pos] attribute; a
    parser is a function from that object to an outcome: a value with the
    advanced cursor, or a raised Python exception. *)

From Stdlib Require Import List ZArith Bool String Ascii Lia Arith DecimalString.
From Stdlib.Strings Require Import Byte.
Import ListNotations.

Local Open Scope nat_scope.

(** ** Bits and bytes *)

(** The eight bits of a byte, most significant first (the order in which
    [bitstring] serves them). *)
Definition byte_bits (b : byte) : list bool :=
  let '(b0, (b1, (b2, (b3, (b4, (b5, (b6, b7))))))) := Byte.to_bits b in
  [b7; b6; b5; b4; b3; b2; b1; b0].

Definition bits_of_bytes (input_bytes : list byte) : list bool :=
  flat_map byte_bits input_bytes.

(** [uint:n]: big-endian unsigned interpretation. *)
Definition bits_to_Z (l : list bool) : Z :=
  fold_left (fun acc (b : bool) => (2 * acc + (if b then 1 else 0))%Z) l 0%Z.

Definition hex_digit (b3 b2 b1 b0 : bool) : ascii :=
  match b3, b2, b1, b0 with
  | false, false, false, false => "0"
  | false, false, false, true => "1"
  | false, false, true, false => "2"
  | false, false, true, true => "3"
  | false, true, false, false => "4"
  | false, true, false, true => "5"
  | false, true, true, false => "6"
  | false, true, true, true => "7"
  | true, false, false, false => "8"
  | true, false, false, true => "9"
  | true, false, true, false => "a"
  | true, false, true, true => "b"
  | true, true, false, false => "c"
  | true, true, false, true => "d"
  | true, true, true, false => "e"
  | true, true, true, true => "f"
  end%char.

(** [hex:n]: one lower-case digit per nibble.  Every width the decoder asks
    for is a multiple of four (12, 32, 8, and eight times the UPID length),
    so the short tail never occurs. *)
Fixpoint bits_to_hex (l : list bool) : string :=
  match l with
  | b3 :: b2 :: b1 :: b0 :: rest => String (hex_digit b3 b2 b1 b0) (bits_to_hex rest)
  | _ => EmptyString
  end.

(** [bin:n]: one character per bit. *)
Fixpoint bits_to_bin (l : list bool) : string :=
  match l with
  | [] => EmptyString
  | b :: rest => String (if b then "1" else "0")%char (bits_to_bin rest)
  end.

(** Python's ["%d" % n]. *)
Definition dec (n : Z) : string := NilZero.string_of_int (Z.to_int n).

(** The [n] bits starting at bit offset [off]. *)
Definition slice (l : list bool) (off n : nat) : list bool :=
  firstn n (skipn off l).

Definition uint_at (l : list bool) (off n : nat) : Z := bits_to_Z (slice l off n).
Definition bool_at (l : list bool) (off : nat) : bool := nth off l false.
Definition hex_at (l : list bool) (off n : nat) : string := bits_to_hex (slice l off n).
Definition bin_at (l : list bool) (off n : nat) : string := bits_to_bin (slice l off n).

(** ** Exceptions *)

(** The exceptions a decode can end with.  The module defines
    [SCTE35_ParseException] and [SCTE35_SpliceInfoSectionException] and only
    ever raises the second; [ReadError] is what [bitstring] raises when a
    [read] asks for more bits than remain, [ValueError] what its [pos] setter
    raises when moved past the end, and [AttributeError] what Python raises
    when an attribute is assigned on a [dict]. *)
Inductive exn : Type :=
| SCTE35_SpliceInfoSectionException (msg : string)
| ReadError
| ValueError
| AttributeError (msg : string).

Inductive exn_class : Type :=
| SCTE35_ParseException_class
| SCTE35_SpliceInfoSectionException_class
| ReadError_class
| ValueError_class
| AttributeError_class.

Definition class_of (e : exn) : exn_class :=
  match e with
  | SCTE35_SpliceInfoSectionException _ => SCTE35_SpliceInfoSectionException_class
  | ReadError => ReadError_class
  | ValueError => ValueError_class
  | AttributeError _ => AttributeError_class
  end.

(** The exception classes the decoder module itself declares. *)
Definition decoder_class (c : exn_class) : bool :=
  match c with
  | SCTE35_ParseException_class | SCTE35_SpliceInfoSectionException_class => true
  | _ => false
  end.

(** ** The cursor and the parser monad *)

Record BitString : Type := mkBitString { bits : list bool; pos : nat }.

(** [bitstring.BitString(bytes=input_bytes)]: cursor at bit 0. *)
Definition BitString_of_bytes (input_bytes : list byte) : BitString :=
  {| bits := bits_of_bytes input_bytes; pos := 0 |}.

Definition seek (s : BitString) (p : nat) : BitString :=
  {| bits := bits s; pos := p |}.

(** [OutOfFuel] is the model's own outcome for a [while] loop cut short by
    its iteration bound; [parse_never_OutOfFuel] shows it does not occur. *)
Inductive result (A : Type) : Type :=
| Return (a : A) (s : BitString)
| Raise (e : exn)
| OutOfFuel.

Arguments Return {A} a s.
Arguments Raise {A} e.
Arguments OutOfFuel {A}.

Definition M (A : Type) : Type := BitString -> result A.

Definition ret {A} (a : A) : M A := fun s => Return a s.

Definition raise {A} (e : exn) : M A := fun _ => Raise e.

Definition bind {A B} (m : M A) (k : A -> M B) : M B :=
  fun s =>
    match m s with
    | Return a s' => k a s'
    | Raise e => Raise e
    | OutOfFuel => OutOfFuel
    end.

Declare Scope parser_scope.
Delimit Scope parser_scope with parser.
Notation "x <- m ;; k" := (bind m (fun x => k))
  (at level 61, m at next level, right associativity) : parser_scope.
Notation "m ;; k" := (bind m (fun _ => k))
  (at level 61, right associativity) : parser_scope.
Local Open Scope parser_scope.

Definition fmap {A B} (f : A -> B) (m : M A) : M B := a <- m ;; ret (f a).

(** [bitarray.read(...)] of [n] bits: fails with [ReadError] when fewer than
    [n] bits remain, otherwise serves them and advances the cursor by [n]. *)
Definition read (n : nat) : M (list bool) :=
  fun s =>
    if pos s + n <=? List.length (bits s)
    then Return (slice (bits s) (pos s) n) (seek s (pos s + n))
    else Raise ReadError.

Definition read_uint (n : nat) : M Z := fmap bits_to_Z (read n).
Definition read_bool : M bool := fmap (fun l => hd false l) (read 1).
Definition read_hex (n : nat) : M string := fmap bits_to_hex (read n).
Definition read_bin (n : nat) : M string := fmap bits_to_bin (read n).

(** [bitarray.pos += k]: the setter refuses a position past the end. *)
Definition advance (k : nat) : M unit :=
  fun s =>
    if pos s + k <=? List.length (bits s)
    then Return tt (seek s (pos s + k))
    else Raise ValueError.

(** ** Decoded structures *)

(** [MPEG_Time]: a tick count of the 90 kHz clock. *)
Definition MPEG_Time : Type := Z.

(** [SCTE35_SpliceInsert.Splice_Time]; an attribute left at [None] by the
    constructor and never assigned is [None] here. *)
Record Splice_Time : Type := {
  time_specified_flag : bool;
  pts_time : option MPEG_Time
}.

(** [SCTE35_SpliceInsert.Component]. *)
Record Component : Type := {
  tag : Z;
  component_splice_time : option Splice_Time
}.

(** [SCTE35_SpliceInsert.BreakDuration]. *)
Record BreakDuration : Type := {
  auto_return : bool;
  duration : MPEG_Time
}.

(** The [SCTE35_SpliceInsert] object as [__parse_splice_insert] returns it.
    [splice_time], [component_count] and [break_duration] are attributes the
    parser creates only on some paths: [None] is an attribute that was never
    set. *)
Record SCTE35_SpliceInsert : Type := {
  splice_id : Z;
  components : list Component;
  splice_event_cancel_indicator : bool;
  out_of_network_indicator : bool;
  program_splice_flag : bool;
  duration_flag : bool;
  splice_immediate_flag : bool;
  splice_time : option Splice_Time;
  component_count : option Z;
  break_duration : option BreakDuration;
  unique_program_id : Z;
  avail_num : Z;
  avails_expected : Z
}.

(** [SCTE35_TimeSignal]. *)
Record SCTE35_TimeSignal : Type := {
  time_signal_splice_time : Splice_Time
}.

(** What [splice_info_section.splice_command] can hold. *)
Inductive SpliceCommand : Type :=
| SpliceInsert (ssi : SCTE35_SpliceInsert)
| TimeSignal (sts : SCTE35_TimeSignal).

(** A Python [dict] with integer values, as created by [component = {}]. *)
Definition dict : Type := list (string * Z).

(** [SCTE35_SegmentationDescriptor]: the constructor sets every attribute
    to [None]; the three inherited attributes, the event id and the cancel
    indicator are assigned on every path that returns. *)
Record SCTE35_SegmentationDescriptor : Type := {
  descriptor_length : Z;
  splice_descriptor_tag : Z;
  identifier : string;
  segmentation_event_id : Z;
  segmentation_event_cancel_indicator : bool;
  program_segmentation_flag : option bool;
  segmentation_duration_flag : option bool;
  delivery_not_restricted_flag : option bool;
  web_delivery_allowed_flag : option bool;
  no_regional_blackout_flag : option bool;
  archive_allowed_flag : option bool;
  device_restrictions : option string;
  segmentation_component_count : option Z;
  segmentation_components : option (list dict);
  segmentation_duration : option Z;
  segmentation_upid_type : option string;
  segmentation_upid_length : option Z;
  segmentation_upid : option string;
  segmentation_type_id : option Z;
  segment_num : option Z;
  segments_expected : option Z;
  sub_segment_num : option Z;
  sub_segments_expected : option Z
}.

(** The attributes [parse] assigns before it reads [splice_command_type]. *)
Record SectionHeader : Type := {
  h_section_syntax_indicator : bool;
  h_private : bool;
  h_section_length : Z;
  h_protocol_version : Z;
  h_encrypted_packet : bool;
  h_encryption_algorithm : Z;
  h_pts_adjustment : Z;
  h_cw_index : Z;
  h_tier : string;
  h_splice_command_length : Z
}.

(** [SCTE35_SpliceInfoSection] as [parse] returns it.  The constructor
    checks [table_id] and does not store it. *)
Record SCTE35_SpliceInfoSection : Type := {
  header : SectionHeader;
  splice_command_type : Z;
  splice_command : option SpliceCommand;
  splice_descriptor_loop_length : Z;
  splice_descriptors : option (list SCTE35_SegmentationDescriptor)
}.

(** ** The parser *)

(** [SCTE35_SpliceInfoSection.__init__]. *)
Definition SCTE35_SpliceInfoSection_init (table_id : Z) : M unit :=
  if (table_id =? 0xfc)%Z then ret tt
  else raise (SCTE35_SpliceInfoSectionException (dec table_id ++ " valid. Should be 0xfc")).

(** [parse], from the [table_id] read to [splice_command_length]. *)
Definition parse_section_header : M SectionHeader :=
  table_id <- read_uint 8 ;;
  SCTE35_SpliceInfoSection_init table_id ;;
  section_syntax_indicator <- read_bool ;;
  private <- read_bool ;;
  advance 2 ;;
  section_length <- read_uint 12 ;;
  protocol_version <- read_uint 8 ;;
  encrypted_packet <- read_bool ;;
  encryption_algorithm <- read_uint 6 ;;
  pts_adjustment <- read_uint 33 ;;
  cw_index <- read_uint 8 ;;
  tier <- read_hex 12 ;;
  splice_command_length <- read_uint 12 ;;
  ret {| h_section_syntax_indicator := section_syntax_indicator;
         h_private := private;
         h_section_length := section_length;
         h_protocol_version := protocol_version;
         h_encrypted_packet := encrypted_packet;
         h_encryption_algorithm := encryption_algorithm;
         h_pts_adjustment := pts_adjustment;
         h_cw_index := cw_index;
         h_tier := tier;
         h_splice_command_length := splice_command_length |}.

(** [__parse_splice_time]. *)
Definition parse_splice_time : M Splice_Time :=
  flag <- read_bool ;;
  if flag then
    advance 6 ;;
    t <- read_uint 33 ;;
    ret {| time_specified_flag := flag; pts_time := Some t |}
  else
    advance 7 ;;
    ret {| time_specified_flag := flag; pts_time := None |}.

(** [__parse_break_duration]. *)
Definition parse_break_duration : M BreakDuration :=
  a <- read_bool ;;
  advance 6 ;;
  d <- read_uint 33 ;;
  ret {| auto_return := a; duration := d |}.

(** [__parse_time_signal]. *)
Definition parse_time_signal : M SCTE35_TimeSignal :=
  st <- parse_splice_time ;;
  ret {| time_signal_splice_time := st |}.

(** The [for i in xrange(0, ssi.component_count)] loop of
    [__parse_splice_insert]; [acc] is [ssi.components]. *)
Fixpoint parse_insert_components (count : nat) (splice_immediate : bool)
    (acc : list Component) : M (list Component) :=
  match count with
  | O => ret acc
  | S count' =>
      t <- read_uint 8 ;;
      st <- (if splice_immediate then fmap Some parse_splice_time else ret None) ;;
      parse_insert_components count' splice_immediate
        (acc ++ [{| tag := t; component_splice_time := st |}])
  end.

(** [__parse_splice_insert].  The [return ssi] statement sits inside the
    [if not ssi.splice_event_cancel_indicator] block: on the cancelled path
    control reaches the end of the function, which in Python returns
    [None]. *)
Definition parse_splice_insert : M (option SCTE35_SpliceInsert) :=
  splice_event_id <- read_uint 32 ;;
  cancel <- read_bool ;;
  advance 7 ;;
  if negb cancel then
    oon <- read_bool ;;
    psf <- read_bool ;;
    df <- read_bool ;;
    sif <- read_bool ;;
    advance 4 ;;
    st <- (if psf && negb sif then fmap Some parse_splice_time else ret None) ;;
    cc <- (if negb psf then
             n <- read_uint 8 ;;
             cs <- parse_insert_components (Z.to_nat n) sif [] ;;
             ret (Some n, cs)
           else ret (None, [])) ;;
    bd <- (if df then fmap Some parse_break_duration else ret None) ;;
    upid <- read_uint 16 ;;
    an <- read_uint 8 ;;
    ae <- read_uint 8 ;;
    ret (Some {| splice_id := splice_event_id;
                 components := snd cc;
                 splice_event_cancel_indicator := cancel;
                 out_of_network_indicator := oon;
                 program_splice_flag := psf;
                 duration_flag := df;
                 splice_immediate_flag := sif;
                 splice_time := st;
                 component_count := fst cc;
                 break_duration := bd;
                 unique_program_id := upid;
                 avail_num := an;
                 avails_expected := ae |})
  else ret None.

(** Assigning an attribute on a [dict] object: [dict] instances accept no
    attributes, so the assignment always raises. *)
Definition dict_setattr (d : dict) (name : string) (v : Z) : M dict :=
  raise (AttributeError ("'dict' object has no attribute '" ++ name ++ "'")).

(** The [for i in range(splice_desc.component_count)] loop of the
    segmentation descriptor; [acc] is [splice_desc.components] and [length]
    the remaining-byte counter of the enclosing loop.  The right-hand side
    of each assignment (the read) is evaluated before the assignment. *)
Fixpoint parse_segmentation_components (count : nat) (length : Z)
    (acc : list dict) : M (list dict * Z) :=
  match count with
  | O => ret (acc, length)
  | S count' =>
      let component : dict := [] in
      v <- read_uint 8 ;;
      component <- dict_setattr component "component_tag" v ;;
      advance 7 ;;
      v <- read_uint 33 ;;
      component <- dict_setattr component "pts_offset" v ;;
      parse_segmentation_components count' (length - 6)%Z (acc ++ [component])
  end.

(** The [splice_descriptor_tag == 0x02] branch of
    [__parse_splice_descriptors], together with the three assignments that
    follow the dispatch.  Returns the descriptor and the updated counter. *)
Definition parse_segmentation_descriptor (splice_descriptor_tag descriptor_length : Z)
    (identifier : string) (length : Z) : M (SCTE35_SegmentationDescriptor * Z) :=
  event_id <- read_uint 32 ;;
  cancel <- read_bool ;;
  advance 7 ;;
  let length := (length - 5)%Z in
  if negb cancel then
    psf <- read_bool ;;
    sdf <- read_bool ;;
    dnr <- read_bool ;;
    restrictions <-
      (if negb dnr then
         w <- read_bool ;;
         r <- read_bool ;;
         a <- read_bool ;;
         d <- read_bin 2 ;;
         ret (Some w, Some r, Some a, Some d)
       else
         advance 5 ;;
         ret (None, None, None, None)) ;;
    let '(web, regional, archive, device) := restrictions in
    let length := (length - 1)%Z in
    comps <-
      (if negb psf then
         n <- read_uint 8 ;;
         let length := (length - 1)%Z in
         r <- parse_segmentation_components (Z.to_nat n) length [] ;;
         ret (Some n, Some (fst r), snd r)
       else ret (None, None, length)) ;;
    let '(count, comp_list, length) := comps in
    dur <-
      (if sdf then
         d <- read_uint 40 ;;
         ret (Some d, (length - 5)%Z)
       else ret (None, length)) ;;
    let '(seg_duration, length) := dur in
    upid_type <- read_hex 8 ;;
    upid_length <- read_uint 8 ;;
    upid <- read_hex (Z.to_nat (upid_length * 8)) ;;
    let length := (length - (upid_length + 2))%Z in
    type_id <- read_uint 8 ;;
    seg_num <- read_uint 8 ;;
    seg_expected <- read_uint 8 ;;
    let length := (length - 3)%Z in
    sub <-
      (if (type_id =? 0x34)%Z || (type_id =? 0x36)%Z then
         sn <- read_uint 8 ;;
         se <- read_uint 8 ;;
         ret (Some sn, Some se, (length - 2)%Z)
       else ret (None, None, length)) ;;
    let '(sub_num, sub_expected, length) := sub in
    ret ({| descriptor_length := descriptor_length;
            splice_descriptor_tag := splice_descriptor_tag;
            identifier := identifier;
            segmentation_event_id := event_id;
            segmentation_event_cancel_indicator := cancel;
            program_segmentation_flag := Some psf;
            segmentation_duration_flag := Some sdf;
            delivery_not_restricted_flag := Some dnr;
            web_delivery_allowed_flag := web;
            no_regional_blackout_flag := regional;
            archive_allowed_flag := archive;
            device_restrictions := device;
            segmentation_component_count := count;
            segmentation_components := comp_list;
            segmentation_duration := seg_duration;
            segmentation_upid_type := Some upid_type;
            segmentation_upid_length := Some upid_length;
            segmentation_upid := Some upid;
            segmentation_type_id := Some type_id;
            segment_num := Some seg_num;
            segments_expected := Some seg_expected;
            sub_segment_num := sub_num;
            sub_segments_expected := sub_expected |}, length)
  else
    ret ({| descriptor_length := descriptor_length;
            splice_descriptor_tag := splice_descriptor_tag;
            identifier := identifier;
            segmentation_event_id := event_id;
            segmentation_event_cancel_indicator := cancel;
            program_segmentation_flag := None;
            segmentation_duration_flag := None;
            delivery_not_restricted_flag := None;
            web_delivery_allowed_flag := None;
            no_regional_blackout_flag := None;
            archive_allowed_flag := None;
            device_restrictions := None;
            segmentation_component_count := None;
            segmentation_components := None;
            segmentation_duration := None;
            segmentation_upid_type := None;
            segmentation_upid_length := None;
            segmentation_upid := None;
            segmentation_type_id := None;
            segment_num := None;
            segments_expected := None;
            sub_segment_num := None;
            sub_segments_expected := None |}, length).

(** One iteration of the [while length > 0] loop of
    [__parse_splice_descriptors]: the 6-byte descriptor head, its decrement,
    and the dispatch on the tag. *)
Definition parse_splice_descriptor (length : Z) : M (SCTE35_SegmentationDescriptor * Z) :=
  splice_descriptor_tag <- read_uint 8 ;;
  descriptor_length <- read_uint 8 ;;
  identifier <- read_hex 32 ;;
  let length := (length - 6)%Z in
  if (splice_descriptor_tag =? 0x00)%Z then
    raise (SCTE35_SpliceInfoSectionException
             ("avail_descriptor (" ++ dec splice_descriptor_tag ++ ") not yet supported"))
  else if (splice_descriptor_tag =? 0x01)%Z then
    raise (SCTE35_SpliceInfoSectionException
             ("DTMF_descriptor (" ++ dec splice_descriptor_tag ++ ") not yet supported"))
  else if (splice_descriptor_tag =? 0x02)%Z then
    parse_segmentation_descriptor splice_descriptor_tag descriptor_length identifier length
  else if (splice_descriptor_tag =? 0x03)%Z then
    raise (SCTE35_SpliceInfoSectionException
             ("time_descriptor (" ++ dec splice_descriptor_tag ++ ") not yet supported"))
  else
    raise (SCTE35_SpliceInfoSectionException
             ("unknown splice_descriptor tag (" ++ dec splice_descriptor_tag ++ ")")).

(** The [while length > 0] loop.  Besides [results] it hands back the value
    the local counter [length] has when the loop is left. *)
Fixpoint descriptors_loop (fuel : nat) (length : Z)
    (results : list SCTE35_SegmentationDescriptor)
    : M (list SCTE35_SegmentationDescriptor * Z) :=
  if (length >? 0)%Z then
    match fuel with
    | O => fun _ => OutOfFuel
    | S fuel' =>
        r <- parse_splice_descriptor length ;;
        descriptors_loop fuel' (snd r) (results ++ [fst r])
    end
  else ret (results, length).

(** [__parse_splice_descriptors].  Every iteration lowers the counter by at
    least 11, so [length] iterations are more than the loop can make. *)
Definition parse_splice_descriptors (length : Z) : M (list SCTE35_SegmentationDescriptor) :=
  fmap fst (descriptors_loop (Z.to_nat length) length []).

(** The dispatch on [splice_command_type] in [parse]. *)
Definition parse_splice_command (splice_command_type : Z) : M (option SpliceCommand) :=
  if (splice_command_type =? 5)%Z then
    fmap (option_map SpliceInsert) parse_splice_insert
  else if (splice_command_type =? 6)%Z then
    fmap (fun sts => Some (TimeSignal sts)) parse_time_signal
  else
    raise (SCTE35_SpliceInfoSectionException
             ("splice_command_type: " ++ dec splice_command_type ++ " not yet supported")).

(** [parse], from [splice_descriptor_loop_length] to [return]. *)
Definition parse_descriptor_loop (h : SectionHeader) (command_type : Z)
    (command : option SpliceCommand) : M SCTE35_SpliceInfoSection :=
  loop_length <- read_uint 16 ;;
  descriptors <-
    (if (loop_length >? 0)%Z
     then fmap Some (parse_splice_descriptors loop_length)
     else ret None) ;;
  ret {| header := h;
         splice_command_type := command_type;
         splice_command := command;
         splice_descriptor_loop_length := loop_length;
         splice_descriptors := descriptors |}.

(** [parse], from [splice_command_type] to the end. *)
Definition parse_after_header (h : SectionHeader) : M SCTE35_SpliceInfoSection :=
  command_type <- read_uint 8 ;;
  command <- parse_splice_command command_type ;;
  parse_descriptor_loop h command_type command.

(** [SCTE35_Parser.parse]. *)
Definition parse (input_bytes : list byte) : result SCTE35_SpliceInfoSection :=
  (h <- parse_section_header ;; parse_after_header h) (BitString_of_bytes input_bytes).

(** ** Reading the buffer by offset *)

(** The header as a function of the bits: every field is the slice of the
    buffer at its fixed offset from the start [p] of the section. *)
Definition header_at (l : list bool) (p : nat) : SectionHeader :=
  {| h_section_syntax_indicator := bool_at l (p + 8);
     h_private := bool_at l (p + 9);
     h_section_length := uint_at l (p + 12) 12;
     h_protocol_version := uint_at l (p + 24) 8;
     h_encrypted_packet := bool_at l (p + 32);
     h_encryption_algorithm := uint_at l (p + 33) 6;
     h_pts_adjustment := uint_at l (p + 39) 33;
     h_cw_index := uint_at l (p + 72) 8;
     h_tier := hex_at l (p + 80) 12;
     h_splice_command_length := uint_at l (p + 92) 12 |}.

(** ** Test vectors *)

(** The example of the module's command-line help,
    [/DAlAAAAAAAAAP/wFAUAAAABf+/+LRQrAP4BI9MIAAEBAQAAfxV6SQ==]. *)
Definition example_marker : list byte :=
  [xfc; x30; x25; x00; x00; x00; x00; x00; x00; x00; xff; xf0; x14; x05;
   x00; x00; x00; x01; x7f; xef; xfe; x2d; x14; x2b; x00; xfe; x01; x23;
   xd3; x08; x00; x01; x01; x01; x00; x00; x7f; x15; x7a; x49].

(** A cancelled splice insert: header, command type 5, event id 1, the
    cancel byte [0xFF], an empty descriptor loop and four CRC bytes. *)
Definition cancelled_insert_marker : list byte :=
  [xfc; x30; x16; x00; x00; x00; x00; x00; x00; x00; xff; xf0; x05; x05;
   x00; x00; x00; x01; xff; x00; x00; x00; x00; x00; x00].


(** A time signal without a time, followed by a descriptor loop of
    [loop_length] bytes holding one descriptor head with the given tag and
    the identifier [CUEI], and [body] after it. *)
Definition time_signal_marker (loop_length tag : byte) (body : list byte) : list byte :=
  [xfc; x30; x16; x00; x00; x00; x00; x00; x00; x00; xff; xf0; x01; x06; x7f;
   x00; loop_length; tag; x09; x43; x55; x45; x49] ++ body.

(** A cancelled segmentation descriptor (11 bytes) in a loop declared to be
    one byte long. *)
Definition short_loop_marker : list byte :=
  time_signal_marker x01 x02 [x00; x00; x00; x01; xff].

(** A segmentation descriptor that is not cancelled, has
    [program_segmentation_flag] clear and declares no component. *)
Definition no_component_marker : list byte :=
  time_signal_marker x12 x02
    [x00; x00; x00; x01; x7f; x3f; x00; x09; x00; x10; x01; x01].

(** The same descriptor declaring one component, with its six bytes. *)
Definition one_component_marker : list byte :=
  time_signal_marker x18 x02
    [x00; x00; x00; x01; x7f; x3f; x01; x00; xfe; x00; x00; x00; x00;
     x09; x00; x10; x01; x01].

(** A segmentation descriptor with restricted delivery (flags byte
    [0xDF]), a 40-bit duration, the four-byte UPID [ABCD] and the type
    [0x34] with its sub-segment pair. *)
Definition segmentation_marker : list byte :=
  time_signal_marker x1c x02
    [x00; x00; x00; x01; x7f; xdf; x00; x00; x29; x32; xe0; x09; x04;
     x41; x42; x43; x44; x34; x01; x02; x01; x03].

(** ** Predicates on descriptors and parsers *)

(** A descriptor as the loop can hand it back: a segmentation descriptor
    that has either no component list at all or, with
    [program_segmentation_flag] clear, a declared count of 0 and an empty
    list. *)
Definition no_components (d : SCTE35_SegmentationDescriptor) : Prop :=
  splice_descriptor_tag d = 2%Z /\
  ((segmentation_component_count d = None /\ segmentation_components d = None) \/
   (program_segmentation_flag d = Some false /\
    segmentation_component_count d = Some 0%Z /\
    segmentation_components d = Some [])).

(** A parser that always comes to an end, by [Return] or by [Raise]. *)
Definition total {A} (m : M A) : Prop := forall s, m s <> OutOfFuel.

(** [truncates m a b]: started on a byte buffer at a cursor [p] with
    [p mod 8 = a], the parser [m] ends at a cursor congruent to [b], and on
    the buffer cut down to its first [l] bits it either does the same (when
    it ends inside them) or raises [ReadError]. *)
Definition truncates {A} (m : M A) (a b : nat) : Prop :=
  forall (l ext : list bool) (p : nat),
    List.length l mod 8 = 0 -> p mod 8 = a -> p <= List.length l ->
    match m {| bits := l ++ ext; pos := p |} with
    | Return x s' =>
        m {| bits := l; pos := p |} = Raise ReadError \/
        (bits s' = l ++ ext /\ pos s' mod 8 = b /\ pos s' <= List.length l /\
         m {| bits := l; pos := p |} = Return x {| bits := l; pos := pos s' |})
    | Raise e =>
        m {| bits := l; pos := p |} = Raise e \/
        m {| bits := l; pos := p |} = Raise ReadError
    | OutOfFuel => True
    end.

(** The exceptions a decode of a byte buffer can end with: the six
    messages of the decoder's own exception, [bitstring]'s [ReadError], and
    the [AttributeError] of the first component assignment. *)
Inductive escapes : exn -> Prop :=
| escapes_table_id (t : Z) :
    t <> 0xfc%Z ->
    escapes (SCTE35_SpliceInfoSectionException (dec t ++ " valid. Should be 0xfc"))
| escapes_command_type (t : Z) :
    t <> 5%Z -> t <> 6%Z ->
    escapes (SCTE35_SpliceInfoSectionException
               ("splice_command_type: " ++ dec t ++ " not yet supported"))
| escapes_avail_descriptor :
    escapes (SCTE35_SpliceInfoSectionException "avail_descriptor (0) not yet supported")
| escapes_DTMF_descriptor :
    escapes (SCTE35_SpliceInfoSectionException "DTMF_descriptor (1) not yet supported")
| escapes_time_descriptor :
    escapes (SCTE35_SpliceInfoSectionException "time_descriptor (3) not yet supported")
| escapes_unknown_descriptor (t : Z) :
    t <> 0%Z -> t <> 1%Z -> t <> 2%Z -> t <> 3%Z ->
    escapes (SCTE35_SpliceInfoSectionException
               ("unknown splice_descriptor tag (" ++ dec t ++ ")"))
| escapes_ReadError : escapes ReadError
| escapes_AttributeError :
    escapes (AttributeError "'dict' object has no attribute 'component_tag'").

(** [aligned m a b k]: on a buffer of whole bytes, started at a cursor [p]
    inside it with [p mod 8 = a], the parser [m] either returns, with the
    same buffer and a cursor inside it, congruent to [b] and at least [k]
    bits further on, or raises one of the exceptions above. *)
Definition aligned {A} (m : M A) (a b k : nat) : Prop :=
  forall (l : list bool) (p : nat),
    List.length l mod 8 = 0 -> p mod 8 = a -> p <= List.length l ->
    match m {| bits := l; pos := p |} with
    | Return x s' =>
        bits s' = l /\ pos s' mod 8 = b /\ p + k <= pos s' /\
        pos s' <= List.length l
    | Raise e => escapes e
    | OutOfFuel => True
    end.

(** The value of a byte, as [ord] gives it. *)
Definition byte_value (b : byte) : Z := Z.of_N (Byte.to_N b).

(** Which attributes of a segmentation descriptor are set, by its flags:
    none of the optional ones when it is cancelled; otherwise the three
    flags, the four delivery restrictions exactly when delivery is
    restricted, the duration exactly when its flag is set, the UPID with as
    many bytes (two hexadecimal digits each) as its length says, the type
    and segment numbers, and the sub-segment pair exactly for the types
    [0x34] and [0x36]. *)
Definition descriptor_body_shape (d : SCTE35_SegmentationDescriptor) : Prop :=
  if segmentation_event_cancel_indicator d then
    program_segmentation_flag d = None /\
    segmentation_duration_flag d = None /\
    delivery_not_restricted_flag d = None /\
    web_delivery_allowed_flag d = None /\
    no_regional_blackout_flag d = None /\
    archive_allowed_flag d = None /\
    device_restrictions d = None /\
    segmentation_component_count d = None /\
    segmentation_components d = None /\
    segmentation_duration d = None /\
    segmentation_upid_type d = None /\
    segmentation_upid_length d = None /\
    segmentation_upid d = None /\
    segmentation_type_id d = None /\
    segment_num d = None /\
    segments_expected d = None /\
    sub_segment_num d = None /\
    sub_segments_expected d = None
  else
    exists (psf sdf dnr : bool) (upid_type upid : string) (upid_length type_id : Z),
      program_segmentation_flag d = Some psf /\
      segmentation_duration_flag d = Some sdf /\
      delivery_not_restricted_flag d = Some dnr /\
      (if dnr then
         web_delivery_allowed_flag d = None /\
         no_regional_blackout_flag d = None /\
         archive_allowed_flag d = None /\
         device_restrictions d = None
       else
         web_delivery_allowed_flag d <> None /\
         no_regional_blackout_flag d <> None /\
         archive_allowed_flag d <> None /\
         exists dv, device_restrictions d = Some dv /\ String.length dv = 2) /\
      (segmentation_duration d <> None <-> sdf = true) /\
      (forall t, segmentation_duration d = Some t -> (0 <= t < 2 ^ 40)%Z) /\
      segmentation_upid_type d = Some upid_type /\
      String.length upid_type = 2 /\
      segmentation_upid_length d = Some upid_length /\
      (0 <= upid_length < 256)%Z /\
      segmentation_upid d = Some upid /\
      String.length upid = 2 * Z.to_nat upid_length /\
      segmentation_type_id d = Some type_id /\
      segment_num d <> None /\
      segments_expected d <> None /\
      (sub_segment_num d <> None <-> type_id = 0x34%Z \/ type_id = 0x36%Z) /\
      (sub_segments_expected d <> None <-> type_id = 0x34%Z \/ type_id = 0x36%Z).

Definition descriptor_shape (d : SCTE35_SegmentationDescriptor) : Prop :=
  splice_descriptor_tag d = 2%Z /\
  (0 <= descriptor_length d < 256)%Z /\
  String.length (identifier d) = 8 /\
  (0 <= segmentation_event_id d < 2 ^ 32)%Z /\
  descriptor_body_shape d.

(** The components of a splice insert that is not immediate: one per
    byte from bit offset [p], each with the byte as its tag and no splice
    time. *)
Definition components_at (l : list bool) (p count : nat) : list Component :=
  map (fun i => {| tag := uint_at l (p + 8 * i) 8; component_splice_time := None |})
      (seq 0 count).

(** * Properties *)

(** ** Basic facts about the cursor primitives *)

Lemma length_byte_bits (b : byte) : List.length (byte_bits b) = 8.
Proof. destruct b; reflexivity. Qed.

Lemma length_bits_of_bytes (l : list byte) :
  List.length (bits_of_bytes l) = 8 * List.length l.
Proof.
  unfold bits_of_bytes.
  induction l as [|b l IH]; [reflexivity|].
  cbn [flat_map]. rewrite length_app, length_byte_bits, IH. cbn [List.length]. lia.
Qed.

Lemma length_slice (l : list bool) (off n : nat) :
  off + n <= List.length l -> List.length (slice l off n) = n.
Proof.
  intros H. unfold slice. rewrite length_firstn, length_skipn. lia.
Qed.

Lemma hd_slice (l : list bool) (off : nat) :
  hd false (slice l off 1) = bool_at l off.
Proof.
  unfold slice, bool_at.
  rewrite <- (Nat.add_0_r off) at 2. rewrite <- nth_skipn.
  destruct (skipn off l); reflexivity.
Qed.

Lemma read_ok (n : nat) (s : BitString) :
  pos s + n <= List.length (bits s) ->
  read n s = Return (slice (bits s) (pos s) n) (seek s (pos s + n)).
Proof.
  intros H. unfold read. apply Nat.leb_le in H. rewrite H. reflexivity.
Qed.

Lemma read_short (n : nat) (s : BitString) :
  List.length (bits s) < pos s + n -> read n s = Raise ReadError.
Proof.
  intros H. unfold read. apply Nat.leb_gt in H. rewrite H. reflexivity.
Qed.

Lemma read_uint_ok (n : nat) (s : BitString) :
  pos s + n <= List.length (bits s) ->
  read_uint n s = Return (uint_at (bits s) (pos s) n) (seek s (pos s + n)).
Proof.
  intros H. unfold read_uint, fmap, bind. rewrite read_ok by assumption. reflexivity.
Qed.

Lemma read_uint_short (n : nat) (s : BitString) :
  List.length (bits s) < pos s + n -> read_uint n s = Raise ReadError.
Proof.
  intros H. unfold read_uint, fmap, bind. rewrite read_short by assumption. reflexivity.
Qed.

Lemma read_hex_ok (n : nat) (s : BitString) :
  pos s + n <= List.length (bits s) ->
  read_hex n s = Return (hex_at (bits s) (pos s) n) (seek s (pos s + n)).
Proof.
  intros H. unfold read_hex, fmap, bind. rewrite read_ok by assumption. reflexivity.
Qed.

Lemma read_hex_short (n : nat) (s : BitString) :
  List.length (bits s) < pos s + n -> read_hex n s = Raise ReadError.
Proof.
  intros H. unfold read_hex, fmap, bind. rewrite read_short by assumption. reflexivity.
Qed.

Lemma read_bin_ok (n : nat) (s : BitString) :
  pos s + n <= List.length (bits s) ->
  read_bin n s = Return (bin_at (bits s) (pos s) n) (seek s (pos s + n)).
Proof.
  intros H. unfold read_bin, fmap, bind. rewrite read_ok by assumption. reflexivity.
Qed.

Lemma read_bin_short (n : nat) (s : BitString) :
  List.length (bits s) < pos s + n -> read_bin n s = Raise ReadError.
Proof.
  intros H. unfold read_bin, fmap, bind. rewrite read_short by assumption. reflexivity.
Qed.

Lemma read_bool_ok (s : BitString) :
  pos s + 1 <= List.length (bits s) ->
  read_bool s = Return (bool_at (bits s) (pos s)) (seek s (pos s + 1)).
Proof.
  intros H. unfold read_bool, fmap, bind. rewrite read_ok by assumption.
  unfold ret. rewrite hd_slice. reflexivity.
Qed.

Lemma read_bool_short (s : BitString) :
  List.length (bits s) < pos s + 1 -> read_bool s = Raise ReadError.
Proof.
  intros H. unfold read_bool, fmap, bind. rewrite read_short by assumption. reflexivity.
Qed.

Lemma advance_ok (k : nat) (s : BitString) :
  pos s + k <= List.length (bits s) ->
  advance k s = Return tt (seek s (pos s + k)).
Proof.
  intros H. unfold advance. apply Nat.leb_le in H. rewrite H. reflexivity.
Qed.

Lemma advance_short (k : nat) (s : BitString) :
  List.length (bits s) < pos s + k -> advance k s = Raise ValueError.
Proof.
  intros H. unfold advance. apply Nat.leb_gt in H. rewrite H. reflexivity.
Qed.

Lemma bind_Return {A B} (m : M A) (k : A -> M B) (s s1 : BitString) (a : A) :
  m s = Return a s1 -> bind m k s = k a s1.
Proof. intros H. unfold bind. rewrite H. reflexivity. Qed.

Lemma bind_Raise {A B} (m : M A) (k : A -> M B) (s : BitString) (e : exn) :
  m s = Raise e -> bind m k s = Raise e.
Proof. intros H. unfold bind. rewrite H. reflexivity. Qed.

Lemma bind_inv {A B} (m : M A) (k : A -> M B) (s s' : BitString) (b : B) :
  bind m k s = Return b s' ->
  exists a s1, m s = Return a s1 /\ k a s1 = Return b s'.
Proof.
  unfold bind. destruct (m s) as [a s1| |]; try discriminate.
  intros H. exists a, s1. split; [reflexivity|assumption].
Qed.

Lemma read_inv (n : nat) (s s' : BitString) (l : list bool) :
  read n s = Return l s' ->
  pos s + n <= List.length (bits s) /\ l = slice (bits s) (pos s) n /\ s' = seek s (pos s + n).
Proof.
  unfold read. destruct (Nat.leb_spec (pos s + n) (List.length (bits s))); [|discriminate].
  intros H'. inversion H'. auto.
Qed.

Lemma read_uint_inv (n : nat) (s s' : BitString) (v : Z) :
  read_uint n s = Return v s' ->
  pos s + n <= List.length (bits s) /\ v = uint_at (bits s) (pos s) n /\ s' = seek s (pos s + n).
Proof.
  intros H. destruct (Nat.le_gt_cases (pos s + n) (List.length (bits s))) as [L|L].
  - rewrite read_uint_ok in H by assumption. inversion H. auto.
  - rewrite read_uint_short in H by assumption. discriminate.
Qed.

Lemma read_hex_inv (n : nat) (s s' : BitString) (v : string) :
  read_hex n s = Return v s' ->
  pos s + n <= List.length (bits s) /\ v = hex_at (bits s) (pos s) n /\ s' = seek s (pos s + n).
Proof.
  intros H. destruct (Nat.le_gt_cases (pos s + n) (List.length (bits s))) as [L|L].
  - rewrite read_hex_ok in H by assumption. inversion H. auto.
  - rewrite read_hex_short in H by assumption. discriminate.
Qed.

Lemma read_bin_inv (n : nat) (s s' : BitString) (v : string) :
  read_bin n s = Return v s' ->
  pos s + n <= List.length (bits s) /\ v = bin_at (bits s) (pos s) n /\ s' = seek s (pos s + n).
Proof.
  intros H. destruct (Nat.le_gt_cases (pos s + n) (List.length (bits s))) as [L|L].
  - rewrite read_bin_ok in H by assumption. inversion H. auto.
  - rewrite read_bin_short in H by assumption. discriminate.
Qed.

Lemma read_bool_inv (s s' : BitString) (v : bool) :
  read_bool s = Return v s' ->
  pos s + 1 <= List.length (bits s) /\ v = bool_at (bits s) (pos s) /\ s' = seek s (pos s + 1).
Proof.
  intros H. destruct (Nat.le_gt_cases (pos s + 1) (List.length (bits s))) as [L|L].
  - rewrite read_bool_ok in H by assumption. inversion H. auto.
  - rewrite read_bool_short in H by assumption. discriminate.
Qed.

Lemma advance_inv (k : nat) (s s' : BitString) (u : unit) :
  advance k s = Return u s' ->
  pos s + k <= List.length (bits s) /\ s' = seek s (pos s + k).
Proof.
  intros H. destruct (Nat.le_gt_cases (pos s + k) (List.length (bits s))) as [L|L].
  - rewrite advance_ok in H by assumption. inversion H. auto.
  - rewrite advance_short in H by assumption. discriminate.
Qed.

Lemma ret_inv {A} (a b : A) (s s' : BitString) :
  ret a s = Return b s' -> b = a /\ s' = s.
Proof. unfold ret. intros H. inversion H. auto. Qed.

Lemma pos_seek (s : BitString) (p : nat) : pos (seek s p) = p.
Proof. reflexivity. Qed.

Lemma bits_seek (s : BitString) (p : nat) : bits (seek s p) = bits s.
Proof. reflexivity. Qed.

Lemma seek_seek (s : BitString) (p q : nat) : seek (seek s p) q = seek s q.
Proof. reflexivity. Qed.

(** Take a successful run apart, one primitive at a time. *)
Ltac inv_step H :=
  let a := fresh "v" in
  let s1 := fresh "s" in
  let H1 := fresh "R" in
  apply bind_inv in H; destruct H as (a & s1 & H1 & H);
  first
    [ apply read_uint_inv in H1; destruct H1 as (? & ? & ?)
    | apply read_bool_inv in H1; destruct H1 as (? & ? & ?)
    | apply read_hex_inv in H1; destruct H1 as (? & ? & ?)
    | apply read_bin_inv in H1; destruct H1 as (? & ? & ?)
    | apply advance_inv in H1; destruct H1 as (? & ?)
    | idtac ];
  subst; rewrite ?pos_seek, ?bits_seek, ?seek_seek in *.

Lemma bind_read_uint {B} (n : nat) (k : Z -> M B) (s : BitString) :
  pos s + n <= List.length (bits s) ->
  bind (read_uint n) k s = k (uint_at (bits s) (pos s) n) (seek s (pos s + n)).
Proof. intros H. apply bind_Return, read_uint_ok, H. Qed.

Lemma bind_read_bool {B} (k : bool -> M B) (s : BitString) :
  pos s + 1 <= List.length (bits s) ->
  bind read_bool k s = k (bool_at (bits s) (pos s)) (seek s (pos s + 1)).
Proof. intros H. apply bind_Return, read_bool_ok, H. Qed.

Lemma bind_read_hex {B} (n : nat) (k : string -> M B) (s : BitString) :
  pos s + n <= List.length (bits s) ->
  bind (read_hex n) k s = k (hex_at (bits s) (pos s) n) (seek s (pos s + n)).
Proof. intros H. apply bind_Return, read_hex_ok, H. Qed.

Lemma bind_read_bin {B} (n : nat) (k : string -> M B) (s : BitString) :
  pos s + n <= List.length (bits s) ->
  bind (read_bin n) k s = k (bin_at (bits s) (pos s) n) (seek s (pos s + n)).
Proof. intros H. apply bind_Return, read_bin_ok, H. Qed.

Lemma bind_advance {B} (n : nat) (k : unit -> M B) (s : BitString) :
  pos s + n <= List.length (bits s) ->
  bind (advance n) k s = k tt (seek s (pos s + n)).
Proof. intros H. apply bind_Return, advance_ok, H. Qed.

Lemma bind_ret {A B} (a : A) (k : A -> M B) (s : BitString) :
  bind (ret a) k s = k a s.
Proof. reflexivity. Qed.

Ltac bits_there := rewrite ?pos_seek, ?bits_seek; lia.

Ltac inv_ret H := apply ret_inv in H; destruct H as [? ?]; subst.

(** Run a parser forward over bits that are known to be there. *)
Ltac run_step :=
  first
    [ rewrite bind_read_uint by bits_there
    | rewrite bind_read_bool by bits_there
    | rewrite bind_read_hex by bits_there
    | rewrite bind_read_bin by bits_there
    | rewrite bind_advance by bits_there
    | rewrite bind_ret ];
  rewrite ?pos_seek, ?bits_seek, ?seek_seek.

(** ** The section header *)

Lemma SCTE35_SpliceInfoSection_init_inv (table_id : Z) (s s' : BitString) (u : unit) :
  SCTE35_SpliceInfoSection_init table_id s = Return u s' ->
  table_id = 0xfc%Z /\ s' = s.
Proof.
  unfold SCTE35_SpliceInfoSection_init.
  destruct (Z.eqb_spec table_id 0xfc); [|discriminate].
  intros H. apply ret_inv in H. tauto.
Qed.

Lemma parse_section_header_inv (s s' : BitString) (h : SectionHeader) :
  parse_section_header s = Return h s' ->
  pos s + 104 <= List.length (bits s) /\
  uint_at (bits s) (pos s) 8 = 0xfc%Z /\
  h = header_at (bits s) (pos s) /\
  s' = seek s (pos s + 104).
Proof.
  unfold parse_section_header. intros H.
  inv_step H.
  apply bind_inv in H. destruct H as (u & s1 & H1 & H).
  apply SCTE35_SpliceInfoSection_init_inv in H1. destruct H1 as [Ht ->].
  rewrite ?pos_seek, ?bits_seek in *.
  do 11 inv_step H.
  apply ret_inv in H. destruct H as [-> ->].
  repeat split; try lia; try assumption.
  - unfold header_at. rewrite <- !Nat.add_assoc. reflexivity.
  - f_equal. lia.
Qed.

Lemma parse_section_header_ok (s : BitString) :
  pos s + 104 <= List.length (bits s) ->
  uint_at (bits s) (pos s) 8 = 0xfc%Z ->
  parse_section_header s = Return (header_at (bits s) (pos s)) (seek s (pos s + 104)).
Proof.
  intros L T. unfold parse_section_header.
  run_step. rewrite T.
  unfold SCTE35_SpliceInfoSection_init at 1. cbn [Z.eqb Pos.eqb].
  do 12 run_step.
  unfold ret, header_at. rewrite <- !Nat.add_assoc. reflexivity.
Qed.

Lemma parse_section_header_bad_table_id (s : BitString) :
  pos s + 8 <= List.length (bits s) ->
  uint_at (bits s) (pos s) 8 <> 0xfc%Z ->
  parse_section_header s =
  Raise (SCTE35_SpliceInfoSectionException
           (dec (uint_at (bits s) (pos s) 8) ++ " valid. Should be 0xfc")).
Proof.
  intros L T. unfold parse_section_header.
  run_step.
  apply bind_Raise. unfold SCTE35_SpliceInfoSection_init.
  destruct (Z.eqb_spec (uint_at (bits s) (pos s) 8) 0xfc); [contradiction|reflexivity].
Qed.

(** The first byte of the buffer, as [read("uint:8")] sees it. *)
Lemma bits_to_Z_byte_bits (b : byte) : bits_to_Z (byte_bits b) = Z.of_N (Byte.to_N b).
Proof. destruct b; reflexivity. Qed.

Lemma slice_0_app (l1 l2 : list bool) : slice (l1 ++ l2) 0 (List.length l1) = l1.
Proof.
  unfold slice. cbn [skipn]. rewrite firstn_app, Nat.sub_diag, firstn_all.
  cbn [firstn]. apply app_nil_r.
Qed.

Lemma uint_at_first_byte (b : byte) (rest : list byte) :
  uint_at (bits_of_bytes (b :: rest)) 0 8 = Z.of_N (Byte.to_N b).
Proof.
  unfold uint_at, bits_of_bytes. cbn [flat_map].
  rewrite <- (length_byte_bits b). rewrite slice_0_app.
  apply bits_to_Z_byte_bits.
Qed.

Lemma byte_value_fc (b : byte) : Z.of_N (Byte.to_N b) = 0xfc%Z -> b = xfc.
Proof.
  intros H. assert (E : Byte.to_N b = 252%N) by lia.
  pose proof (Byte.of_to_N b) as O. rewrite E in O. cbv in O. congruence.
Qed.

Lemma parse_unfold (input_bytes : list byte) :
  parse input_bytes =
  bind parse_section_header parse_after_header (BitString_of_bytes input_bytes).
Proof. reflexivity. Qed.

Lemma bind_fmap {A B C} (f : A -> B) (m : M A) (k : B -> M C) (s : BitString) :
  bind (fmap f m) k s = bind m (fun a => k (f a)) s.
Proof. unfold fmap, bind, ret. destruct (m s); reflexivity. Qed.

(** C2 (as the code has it).  When the header parse succeeds on a buffer,
    the first byte is [0xFC], every header field is the slice of the buffer
    at its place in the order 8+1+1+2+12+8+1+6+33+8+12+12, and the cursor
    stands at bit 104 (the sum of those widths) before
    [splice_command_type] is read. *)
Theorem section_header_layout (input_bytes : list byte) (h : SectionHeader) (s' : BitString) :
  parse_section_header (BitString_of_bytes input_bytes) = Return h s' ->
  let l := bits_of_bytes input_bytes in
  uint_at l 0 8 = 0xfc%Z /\
  h_section_syntax_indicator h = bool_at l 8 /\
  h_private h = bool_at l 9 /\
  h_section_length h = uint_at l 12 12 /\
  h_protocol_version h = uint_at l 24 8 /\
  h_encrypted_packet h = bool_at l 32 /\
  h_encryption_algorithm h = uint_at l 33 6 /\
  h_pts_adjustment h = uint_at l 39 33 /\
  h_cw_index h = uint_at l 72 8 /\
  h_tier h = hex_at l 80 12 /\
  h_splice_command_length h = uint_at l 92 12 /\
  bits s' = l /\
  pos s' = 8 + 1 + 1 + 2 + 12 + 8 + 1 + 6 + 33 + 8 + 12 + 12 /\
  pos s' = 104.
Proof.
  intros H l. apply parse_section_header_inv in H.
  destruct H as (_ & T & -> & ->). cbn [BitString_of_bytes pos bits] in *.
  fold l in T |- *. unfold header_at. cbn [h_section_syntax_indicator h_private
    h_section_length h_protocol_version h_encrypted_packet h_encryption_algorithm
    h_pts_adjustment h_cw_index h_tier h_splice_command_length seek bits pos Nat.add].
  repeat split; try reflexivity. exact T.
Qed.

Lemma section_header_layout_witness :
  parse_section_header (BitString_of_bytes example_marker) =
    Return (header_at (bits_of_bytes example_marker) 0)
           (seek (BitString_of_bytes example_marker) 104) /\
  pos (seek (BitString_of_bytes example_marker) 104) = 104.
Proof.
  assert (H : parse_section_header (BitString_of_bytes example_marker) =
              Return (header_at (bits_of_bytes example_marker) 0)
                     (seek (BitString_of_bytes example_marker) 104))
    by (vm_compute; reflexivity).
  split; [exact H|].
  apply (section_header_layout example_marker _ _ H).
Defined.

(** C2 (as stated) fails: on the example marker the header parse succeeds
    and leaves the cursor at bit 104, not 97. *)
Lemma section_header_offset_not_97 :
  exists h s',
    parse_section_header (BitString_of_bytes example_marker) = Return h s' /\
    pos s' = 104 /\ pos s' <> 97.
Proof.
  eexists. eexists. split; [vm_compute; reflexivity|].
  cbn [pos]. split; [reflexivity|discriminate].
Qed.

(** C7.  A buffer whose first byte is not [0xFC] makes [parse] raise the
    exception of the [table_id] check, whatever follows the first byte: the
    outcome is that of the one-byte buffer. *)
Theorem invalid_table_id (b : byte) (rest : list byte) :
  b <> xfc ->
  parse (b :: rest) =
    Raise (SCTE35_SpliceInfoSectionException
             (dec (Z.of_N (Byte.to_N b)) ++ " valid. Should be 0xfc")) /\
  parse (b :: rest) = parse [b].
Proof.
  intros Hb.
  assert (E : forall tl, parse (b :: tl) =
    Raise (SCTE35_SpliceInfoSectionException
             (dec (Z.of_N (Byte.to_N b)) ++ " valid. Should be 0xfc"))).
  { intros tl. rewrite parse_unfold. apply bind_Raise.
    rewrite <- (uint_at_first_byte b tl).
    apply parse_section_header_bad_table_id.
    - cbn [BitString_of_bytes pos bits]. rewrite length_bits_of_bytes.
      cbn [List.length]. lia.
    - cbn [BitString_of_bytes pos bits]. rewrite uint_at_first_byte.
      intros F. apply Hb, byte_value_fc, F. }
  split; [apply E|]. rewrite (E rest), (E []). reflexivity.
Qed.

Lemma invalid_table_id_witness :
  parse [x47; x40; x00; x10] =
    Raise (SCTE35_SpliceInfoSectionException "71 valid. Should be 0xfc") /\
  parse [x47; x40; x00; x10] = parse [x47].
Proof.
  apply (invalid_table_id x47 [x40; x00; x10]). discriminate.
Defined.

(** C6.  On a buffer that holds the header and the command-type byte,
    [parse] continues with the splice-insert parser when the byte is 5, with
    the time-signal parser when it is 6, both started at bit 112; any other
    value ends the decode with the exception whose message carries the value,
    and no section is returned. *)
Theorem splice_command_dispatch (input_bytes : list byte) :
  14 <= List.length input_bytes ->
  uint_at (bits_of_bytes input_bytes) 0 8 = 0xfc%Z ->
  let l := bits_of_bytes input_bytes in
  let h := header_at l 0 in
  let command_type := uint_at l 104 8 in
  let s := {| bits := l; pos := 112 |} in
  (command_type = 5%Z ->
   parse input_bytes =
     (c <- parse_splice_insert ;;
      parse_descriptor_loop h 5 (option_map SpliceInsert c)) s) /\
  (command_type = 6%Z ->
   parse input_bytes =
     (c <- parse_time_signal ;;
      parse_descriptor_loop h 6 (Some (TimeSignal c))) s) /\
  (command_type <> 5%Z -> command_type <> 6%Z ->
   parse input_bytes =
     Raise (SCTE35_SpliceInfoSectionException
              ("splice_command_type: " ++ dec command_type ++ " not yet supported"))).
Proof.
  intros L T l h command_type s.
  pose proof (length_bits_of_bytes input_bytes) as Len.
  assert (E : parse input_bytes =
              bind (parse_splice_command command_type)
                   (parse_descriptor_loop h command_type) s).
  { rewrite parse_unfold.
    erewrite bind_Return; cycle 1.
    { apply parse_section_header_ok; cbn [BitString_of_bytes pos bits].
      - lia.
      - exact T. }
    cbn [BitString_of_bytes pos bits seek Nat.add]. fold l.
    unfold parse_after_header.
    rewrite bind_read_uint by (cbn [pos bits seek BitString_of_bytes]; lia).
    reflexivity. }
  rewrite E. unfold parse_splice_command. repeat split.
  - intros ->. cbn [Z.eqb Pos.eqb]. apply bind_fmap.
  - intros ->. cbn [Z.eqb Pos.eqb]. apply bind_fmap.
  - intros N5 N6.
    destruct (Z.eqb_spec command_type 5); [contradiction|].
    destruct (Z.eqb_spec command_type 6); [contradiction|].
    reflexivity.
Qed.

Lemma splice_command_dispatch_witness :
  parse example_marker =
    (c <- parse_splice_insert ;;
     parse_descriptor_loop (header_at (bits_of_bytes example_marker) 0) 5
       (option_map SpliceInsert c))
      {| bits := bits_of_bytes example_marker; pos := 112 |}.
Proof.
  assert (L : 14 <= List.length example_marker) by (cbn; lia).
  assert (T : uint_at (bits_of_bytes example_marker) 0 8 = 0xfc%Z) by reflexivity.
  destruct (splice_command_dispatch example_marker L T) as (H5 & _ & _).
  apply H5. reflexivity.
Defined.

(** ** Splice time *)

(** C9.  A successful run of the splice-time parser consumes 40 bits (flag,
    6 reserved, 33 of [pts_time]) when the flag bit under the cursor is set
    and 8 bits (flag, 7 reserved) when it is clear; [pts_time] is present
    exactly when the flag is set. *)
Theorem splice_time_width (s s' : BitString) (st : Splice_Time) :
  parse_splice_time s = Return st s' ->
  time_specified_flag st = bool_at (bits s) (pos s) /\
  bits s' = bits s /\
  pos s' = pos s + (if time_specified_flag st then 1 + 6 + 33 else 1 + 7) /\
  pos s' = pos s + (if bool_at (bits s) (pos s) then 40 else 8) /\
  (pts_time st <> None <-> time_specified_flag st = true) /\
  (time_specified_flag st = true ->
   pts_time st = Some (uint_at (bits s) (pos s + 7) 33)).
Proof.
  unfold parse_splice_time. intros H.
  inv_step H.
  destruct (bool_at (bits s) (pos s)) eqn:F.
  - do 2 inv_step H. apply ret_inv in H. destruct H as [-> ->].
    cbn [time_specified_flag pts_time pos bits seek].
    repeat split; try lia; try congruence.
    intros _. rewrite <- !Nat.add_assoc. reflexivity.
  - inv_step H. apply ret_inv in H. destruct H as [-> ->].
    cbn [time_specified_flag pts_time pos bits seek].
    repeat split; try lia; try congruence.
Qed.

Lemma parse_splice_time_set (s : BitString) :
  pos s + 40 <= List.length (bits s) ->
  bool_at (bits s) (pos s) = true ->
  parse_splice_time s =
    Return {| time_specified_flag := true;
              pts_time := Some (uint_at (bits s) (pos s + 7) 33) |}
           (seek s (pos s + 40)).
Proof.
  intros L F. unfold parse_splice_time.
  run_step. rewrite F. do 2 run_step.
  unfold ret. rewrite <- !Nat.add_assoc. reflexivity.
Qed.

Lemma parse_splice_time_clear (s : BitString) :
  pos s + 8 <= List.length (bits s) ->
  bool_at (bits s) (pos s) = false ->
  parse_splice_time s =
    Return {| time_specified_flag := false; pts_time := None |} (seek s (pos s + 8)).
Proof.
  intros L F. unfold parse_splice_time.
  run_step. rewrite F. run_step.
  unfold ret. rewrite <- !Nat.add_assoc. reflexivity.
Qed.

Lemma splice_time_width_witness :
  pos (seek {| bits := bits_of_bytes example_marker; pos := 160 |} 200) =
  160 + (if bool_at (bits_of_bytes example_marker) 160 then 40 else 8).
Proof.
  apply (splice_time_width {| bits := bits_of_bytes example_marker; pos := 160 |} _
           {| time_specified_flag := true;
              pts_time := Some (uint_at (bits_of_bytes example_marker) 167 33) |}).
  apply parse_splice_time_set; [cbn; lia | reflexivity].
Defined.


(** ** Splice insert *)

Lemma fmap_inv {A B} (f : A -> B) (m : M A) (s s' : BitString) (b : B) :
  fmap f m s = Return b s' -> exists a, m s = Return a s' /\ b = f a.
Proof.
  unfold fmap. intros H. apply bind_inv in H. destruct H as (a & s1 & H1 & H).
  apply ret_inv in H. destruct H as [-> ->]. exists a. auto.
Qed.


Lemma parse_splice_insert_cancelled (s : BitString) :
  pos s + 40 <= List.length (bits s) ->
  bool_at (bits s) (pos s + 32) = true ->
  parse_splice_insert s = Return None (seek s (pos s + 40)).
Proof.
  intros L C. unfold parse_splice_insert.
  do 3 run_step. rewrite C. cbn [negb]. unfold ret. f_equal. f_equal. lia.
Qed.

(** C1 (the code against the claim).  On a splice insert whose cancel bit is
    set the command parser stops after the cancel byte, as the claim says,
    but it hands back [None]: every section decoded from such a buffer
    carries no command, as the decode of the cancelled marker shows. *)
Theorem cancelled_insert_has_no_command :
  (forall (input_bytes : list byte) (sis : SCTE35_SpliceInfoSection) (s' : BitString),
      parse input_bytes = Return sis s' ->
      splice_command_type sis = 5%Z ->
      bool_at (bits_of_bytes input_bytes) 144 = true ->
      splice_command sis = None) /\
  parse_splice_insert {| bits := bits_of_bytes cancelled_insert_marker; pos := 112 |} =
    Return None {| bits := bits_of_bytes cancelled_insert_marker; pos := 152 |} /\
  exists sis s',
    parse cancelled_insert_marker = Return sis s' /\
    splice_command_type sis = 5%Z /\
    splice_command sis = None /\
    splice_descriptor_loop_length sis = 0%Z /\
    pos s' = 168.
Proof.
  split; [|split].
  - intros input_bytes sis s' H T C.
    rewrite parse_unfold in H.
    apply bind_inv in H. destruct H as (h & s1 & Hh & H).
    apply parse_section_header_inv in Hh. destruct Hh as (_ & _ & -> & ->).
    cbn [BitString_of_bytes pos bits seek Nat.add] in H.
    unfold parse_after_header in H. inv_step H.
    apply bind_inv in H. destruct H as (command & s2 & Hc & H).
    unfold parse_descriptor_loop in H. inv_step H.
    apply bind_inv in H. destruct H as (ds & s3 & _ & H).
    inv_ret H. cbn [splice_command_type splice_command] in *.
    cbn [pos bits] in T. rewrite T in Hc. unfold parse_splice_command in Hc.
    cbn [Z.eqb Pos.eqb] in Hc.
    apply fmap_inv in Hc. destruct Hc as (c & Hc & ->).
    unfold parse_splice_insert in Hc. do 3 inv_step Hc.
    cbn [bits pos Nat.add BitString_of_bytes] in Hc. rewrite C in Hc. cbn [negb] in Hc.
    inv_ret Hc. reflexivity.
  - rewrite parse_splice_insert_cancelled; [reflexivity | cbn; lia | reflexivity].
  - eexists. eexists. split; [vm_compute; reflexivity|]. repeat split.
Qed.

(** ** Splice descriptors *)

Lemma bits_to_Z_nonneg (l : list bool) : (0 <= bits_to_Z l)%Z.
Proof.
  unfold bits_to_Z.
  assert (G : forall acc, (0 <= acc)%Z ->
    (0 <= fold_left (fun a (b : bool) => 2 * a + (if b then 1 else 0)) l acc)%Z).
  { induction l as [|b l IH]; intros acc Hacc; cbn [fold_left]; [assumption|].
    apply IH. destruct b; lia. }
  apply G. lia.
Qed.

Lemma uint_at_nonneg (l : list bool) (off n : nat) : (0 <= uint_at l off n)%Z.
Proof. apply bits_to_Z_nonneg. Qed.

(** The component loop of the segmentation descriptor returns only when it
    has nothing to do: its first iteration raises. *)
Lemma parse_segmentation_components_inv (count : nat) (length : Z) (acc : list dict)
    (s s' : BitString) (r : list dict * Z) :
  parse_segmentation_components count length acc s = Return r s' ->
  count = 0 /\ r = (acc, length) /\ s' = s.
Proof.
  destruct count as [|count]; cbn [parse_segmentation_components]; intros H.
  - apply ret_inv in H. tauto.
  - inv_step H. apply bind_inv in H. destruct H as (c & s1 & H1 & _).
    discriminate H1.
Qed.

Lemma parse_segmentation_components_raises (count : nat) (length : Z) (acc : list dict)
    (s : BitString) :
  parse_segmentation_components (S count) length acc s =
    if pos s + 8 <=? List.length (bits s)
    then Raise (AttributeError "'dict' object has no attribute 'component_tag'")
    else Raise ReadError.
Proof.
  cbn [parse_segmentation_components].
  destruct (Nat.leb_spec (pos s + 8) (List.length (bits s))) as [L|L].
  - run_step. reflexivity.
  - apply bind_Raise. apply read_uint_short. exact L.
Qed.

Lemma parse_segmentation_descriptor_inv (t dl : Z) (ident : string) (length : Z)
    (s s' : BitString) (d : SCTE35_SegmentationDescriptor) (length' : Z) :
  parse_segmentation_descriptor t dl ident length s = Return (d, length') s' ->
  bits s' = bits s /\
  (Z.of_nat (pos s') = Z.of_nat (pos s) + 8 * (length - length'))%Z /\
  (length' <= length - 5)%Z /\
  splice_descriptor_tag d = t /\
  segmentation_event_cancel_indicator d = bool_at (bits s) (pos s + 32) /\
  ((segmentation_component_count d = None /\ segmentation_components d = None) \/
   (program_segmentation_flag d = Some false /\
    segmentation_component_count d = Some 0%Z /\
    segmentation_components d = Some [])).
Proof.
  unfold parse_segmentation_descriptor. intros H.
  do 3 inv_step H.
  destruct (bool_at (bits s) (pos s + 32)) eqn:C; cbn [negb] in H.
  { inv_ret H. match goal with E : (_, _) = (_, _) |- _ => injection E as -> -> end.
    cbn [bits pos seek splice_descriptor_tag segmentation_event_cancel_indicator
         program_segmentation_flag segmentation_component_count segmentation_components].
    repeat split; try lia. left. split; reflexivity. }
  do 3 inv_step H.
  apply bind_inv in H. destruct H as (restr & s1 & Hr & H).
  assert (Es1 : s1 = seek s (pos s + 48)).
  { destruct (bool_at (bits s) (pos s + 32 + 1 + 7 + 1 + 1)); cbn [negb] in Hr.
    - inv_step Hr. inv_ret Hr. f_equal. lia.
    - do 4 inv_step Hr. inv_ret Hr. f_equal. lia. }
  subst s1. clear Hr. destruct restr as [[[web regional] archive] device].
  apply bind_inv in H. destruct H as (comps & s2 & Hc & H).
  destruct comps as [[count comp_list] len2].
  set (psf := bool_at (bits s) (pos s + 32 + 1 + 7)) in *.
  assert (Ec : bits s2 = bits s /\
               (Z.of_nat (pos s2) = Z.of_nat (pos s) + 8 * (length - len2))%Z /\
               (len2 <= length - 6)%Z /\
               ((count = None /\ comp_list = None) \/
                (psf = false /\ count = Some 0%Z /\ comp_list = Some []))).
  { destruct psf; cbn [negb] in Hc.
    - inv_ret Hc. match goal with E : (_, _) = (_, _) |- _ => injection E as -> -> -> end.
      cbn [bits pos seek]. repeat split; try lia. left. split; reflexivity.
    - inv_step Hc. apply bind_inv in Hc. destruct Hc as (r & s3 & Hl & Hc).
      apply parse_segmentation_components_inv in Hl. destruct Hl as (Hn & -> & ->).
      inv_ret Hc. match goal with E : (_, _) = (_, _) |- _ => injection E as -> -> -> end.
      cbn [bits pos seek fst snd]. repeat split; try lia.
      right. repeat split.
      f_equal. pose proof (uint_at_nonneg (bits s) (pos s + 48) 8). lia. }
  clear Hc. destruct Ec as (Eb2 & Ep2 & El2 & Ecount).
  apply bind_inv in H. destruct H as (dur & s3 & Hd & H).
  destruct dur as [seg_duration len3].
  assert (Ed : bits s3 = bits s /\
               (Z.of_nat (pos s3) = Z.of_nat (pos s) + 8 * (length - len3))%Z /\
               (len3 <= len2)%Z).
  { destruct (bool_at (bits s) (pos s + 32 + 1 + 7 + 1)).
    - inv_step Hd. inv_ret Hd.
      match goal with E : (_, _) = (_, _) |- _ => injection E as -> -> end.
      cbn [bits pos seek]. split; [assumption|lia].
    - inv_ret Hd. match goal with E : (_, _) = (_, _) |- _ => injection E as -> -> end.
      split; [assumption|lia]. }
  clear Hd. destruct Ed as (Eb3 & Ep3 & El3).
  do 6 inv_step H.
  apply bind_inv in H. destruct H as (sub & s4 & Hs & H).
  destruct sub as [[sub_num sub_expected] len4].
  inv_ret H. match goal with E : (_, _) = (_, _) |- _ => injection E as -> -> end.
  cbn [splice_descriptor_tag segmentation_event_cancel_indicator
       program_segmentation_flag segmentation_component_count segmentation_components].
  set (ul := uint_at (bits s3) (pos s3 + 8) 8) in *.
  pose proof (uint_at_nonneg (bits s3) (pos s3 + 8) 8) as Hul. fold ul in Hul.
  match type of Hs with
  | (if ?c then _ else _) _ = _ => destruct c
  end.
  - do 2 inv_step Hs. inv_ret Hs.
    match goal with E : (_, _) = (_, _) |- _ => injection E as -> -> -> end.
    cbn [bits pos seek].
    split; [assumption|]. split; [lia|]. split; [lia|].
    split; [reflexivity|]. split; [reflexivity|].
    destruct Ecount as [?|(-> & ? & ?)]; [left; assumption|right; auto].
  - inv_ret Hs.
    match goal with E : (_, _) = (_, _) |- _ => injection E as -> -> -> end.
    cbn [bits pos seek].
    split; [assumption|]. split; [lia|]. split; [lia|].
    split; [reflexivity|]. split; [reflexivity|].
    destruct Ecount as [?|(-> & ? & ?)]; [left; assumption|right; auto].
Qed.

Lemma parse_splice_descriptor_inv (length : Z) (s s' : BitString)
    (d : SCTE35_SegmentationDescriptor) (length' : Z) :
  parse_splice_descriptor length s = Return (d, length') s' ->
  pos s + 48 <= List.length (bits s) /\
  uint_at (bits s) (pos s) 8 = 2%Z /\
  bits s' = bits s /\
  (Z.of_nat (pos s') = Z.of_nat (pos s) + 8 * (length - length'))%Z /\
  (length' <= length - 11)%Z /\
  no_components d.
Proof.
  unfold parse_splice_descriptor. intros H.
  do 3 inv_step H.
  set (t := uint_at (bits s) (pos s) 8) in *.
  destruct (Z.eqb_spec t 0); [discriminate H|].
  destruct (Z.eqb_spec t 1); [discriminate H|].
  destruct (Z.eqb_spec t 2) as [E2|]; cycle 1.
  { destruct (Z.eqb_spec t 3); discriminate H. }
  apply parse_segmentation_descriptor_inv in H.
  destruct H as (Hb & Hp & Hl & Ht & _ & Hc). cbn [bits pos seek] in Hb, Hp.
  unfold no_components. rewrite Ht.
  repeat split; try assumption; try lia.
Qed.

Lemma descriptors_loop_inv (fuel : nat) :
  forall (length : Z) (results : list SCTE35_SegmentationDescriptor) (s s' : BitString)
         (ds : list SCTE35_SegmentationDescriptor) (length' : Z),
    descriptors_loop fuel length results s = Return (ds, length') s' ->
    (length' <= 0)%Z /\
    bits s' = bits s /\
    (Z.of_nat (pos s') = Z.of_nat (pos s) + 8 * (length - length'))%Z /\
    (Forall no_components results -> Forall no_components ds).
Proof.
  induction fuel as [|fuel IH]; intros length results s s' ds length' H;
    cbn [descriptors_loop] in H;
    destruct (Z.gtb_spec length 0) as [G|G]; try discriminate H.
  - inv_ret H. match goal with E : (_, _) = (_, _) |- _ => injection E as -> -> end.
    repeat split; try lia; auto.
  - apply bind_inv in H. destruct H as ([d len1] & s1 & H1 & H).
    apply parse_splice_descriptor_inv in H1.
    destruct H1 as (_ & _ & Hb & Hp & Hl & Hd).
    cbn [fst snd] in H. apply IH in H. destruct H as (Hle & Hb' & Hp' & HF).
    repeat split; try lia; try congruence.
    intros F. apply HF. apply Forall_app. split; [assumption|].
    constructor; [assumption|constructor].
  - inv_ret H. match goal with E : (_, _) = (_, _) |- _ => injection E as -> -> end.
    repeat split; try lia; auto.
Qed.

(** ** Every parser comes to an end *)

Lemma total_ret {A} (a : A) : total (ret a).
Proof. intros s. discriminate. Qed.

Lemma total_raise {A} (e : exn) : total (@raise A e).
Proof. intros s. discriminate. Qed.

Lemma total_bind {A B} (m : M A) (k : A -> M B) :
  total m -> (forall a, total (k a)) -> total (bind m k).
Proof.
  intros Hm Hk s. unfold bind. specialize (Hm s).
  destruct (m s) as [a s1|e|]; [apply Hk|discriminate|contradiction].
Qed.

Lemma total_fmap {A B} (f : A -> B) (m : M A) : total m -> total (fmap f m).
Proof. intros Hm. apply total_bind; [assumption|]. intros a. apply total_ret. Qed.

Lemma total_read (n : nat) : total (read n).
Proof. intros s. unfold read. destruct (_ <=? _); discriminate. Qed.

Lemma total_advance (n : nat) : total (advance n).
Proof. intros s. unfold advance. destruct (_ <=? _); discriminate. Qed.

Lemma total_read_uint (n : nat) : total (read_uint n).
Proof. apply total_fmap, total_read. Qed.

Lemma total_read_bool : total read_bool.
Proof. apply total_fmap, total_read. Qed.

Lemma total_read_hex (n : nat) : total (read_hex n).
Proof. apply total_fmap, total_read. Qed.

Lemma total_read_bin (n : nat) : total (read_bin n).
Proof. apply total_fmap, total_read. Qed.

Create HintDb total.
#[local] Hint Resolve total_ret total_raise total_fmap total_read_uint total_read_bool
  total_read_hex total_read_bin total_advance : total.

Ltac total_step :=
  match goal with
  | |- total (bind _ _) => apply total_bind; [|intros ?]
  | |- total (if ?b then _ else _) => destruct b
  | |- total (let '(_, _) := ?p in _) => destruct p
  | |- total _ => solve [auto with total]
  end.

Lemma total_parse_section_header : total parse_section_header.
Proof.
  unfold parse_section_header. repeat total_step.
  unfold SCTE35_SpliceInfoSection_init. total_step; auto with total.
Qed.

Lemma total_parse_splice_time : total parse_splice_time.
Proof. unfold parse_splice_time. repeat total_step. Qed.

Lemma total_parse_break_duration : total parse_break_duration.
Proof. unfold parse_break_duration. repeat total_step. Qed.

#[local] Hint Resolve total_parse_section_header total_parse_splice_time
  total_parse_break_duration : total.

Lemma total_parse_time_signal : total parse_time_signal.
Proof. unfold parse_time_signal. repeat total_step. Qed.

Lemma total_parse_insert_components (count : nat) :
  forall (sif : bool) (acc : list Component), total (parse_insert_components count sif acc).
Proof.
  induction count as [|count IH]; intros sif acc; cbn [parse_insert_components].
  - apply total_ret.
  - repeat total_step; apply IH.
Qed.

#[local] Hint Resolve total_parse_time_signal total_parse_insert_components : total.

Lemma total_parse_splice_insert : total parse_splice_insert.
Proof. unfold parse_splice_insert. repeat total_step. Qed.

Lemma total_parse_segmentation_components (count : nat) (length : Z) (acc : list dict) :
  total (parse_segmentation_components count length acc).
Proof.
  destruct count; cbn [parse_segmentation_components].
  - apply total_ret.
  - apply total_bind; [auto with total|]. intros v.
    apply total_bind; [|intros c].
    + unfold dict_setattr. apply total_raise.
    + intros s. unfold bind, advance. destruct (_ <=? _); [|discriminate].
      unfold read_uint, fmap, bind, read. destruct (_ <=? _); discriminate.
Qed.

#[local] Hint Resolve total_parse_splice_insert total_parse_segmentation_components : total.

Lemma total_parse_segmentation_descriptor (t dl : Z) (ident : string) (length : Z) :
  total (parse_segmentation_descriptor t dl ident length).
Proof. unfold parse_segmentation_descriptor. repeat total_step. Qed.

#[local] Hint Resolve total_parse_segmentation_descriptor : total.

Lemma total_parse_splice_descriptor (length : Z) : total (parse_splice_descriptor length).
Proof. unfold parse_splice_descriptor. repeat total_step. Qed.

(** The iteration bound of the [while] loop is never reached: each
    iteration that returns has lowered the counter by at least 11. *)
Lemma descriptors_loop_total (fuel : nat) :
  forall (length : Z) (results : list SCTE35_SegmentationDescriptor),
    Z.to_nat length <= fuel -> total (descriptors_loop fuel length results).
Proof.
  induction fuel as [|fuel IH]; intros length results Hf s;
    cbn [descriptors_loop]; destruct (Z.gtb_spec length 0) as [G|G];
    try discriminate; try lia.
  unfold bind.
  destruct (parse_splice_descriptor length s) as [[d len1] s1|e|] eqn:E.
  - apply parse_splice_descriptor_inv in E. cbn [fst snd].
    apply IH. lia.
  - discriminate.
  - exfalso. exact (total_parse_splice_descriptor length s E).
Qed.

Lemma total_parse_splice_descriptors (length : Z) : total (parse_splice_descriptors length).
Proof.
  unfold parse_splice_descriptors. apply total_fmap, descriptors_loop_total. lia.
Qed.

#[local] Hint Resolve total_parse_splice_descriptors : total.

Lemma total_parse_after_header (h : SectionHeader) : total (parse_after_header h).
Proof.
  unfold parse_after_header, parse_splice_command, parse_descriptor_loop.
  repeat total_step.
Qed.

(** The decoder returns or raises on every buffer. *)
Theorem parse_never_OutOfFuel (input_bytes : list byte) : parse input_bytes <> OutOfFuel.
Proof.
  rewrite parse_unfold. apply total_bind.
  - apply total_parse_section_header.
  - apply total_parse_after_header.
Qed.

(** ** Descriptor tags *)

Lemma descriptors_loop_step (fuel : nat) (length : Z)
    (results : list SCTE35_SegmentationDescriptor) (s : BitString) :
  (0 < length)%Z ->
  descriptors_loop (S fuel) length results s =
    bind (parse_splice_descriptor length)
         (fun r => descriptors_loop fuel (snd r) (results ++ [fst r])) s.
Proof.
  intros G. cbn [descriptors_loop].
  destruct (Z.gtb_spec length 0); [reflexivity|lia].
Qed.

(** C3 (as the code has it).  Whenever an iteration of the descriptor loop
    finds a tag other than 2 in a complete descriptor head, the loop (and
    with it the decode) ends with [SCTE35_SpliceInfoSectionException]: for
    tags 0, 1 and 3 with a "not yet supported" message naming the descriptor,
    for every other tag with the "unknown" message.  The exception class is
    the same in both cases; only the message tells them apart. *)
Theorem descriptor_tag_errors (fuel : nat) (length : Z)
    (results : list SCTE35_SegmentationDescriptor) (s : BitString) :
  (0 < length)%Z ->
  pos s + 48 <= List.length (bits s) ->
  uint_at (bits s) (pos s) 8 <> 2%Z ->
  let t := uint_at (bits s) (pos s) 8 in
  exists msg,
    descriptors_loop (S fuel) length results s =
      Raise (SCTE35_SpliceInfoSectionException msg) /\
    (t = 0%Z -> msg = "avail_descriptor (0) not yet supported"%string) /\
    (t = 1%Z -> msg = "DTMF_descriptor (1) not yet supported"%string) /\
    (t = 3%Z -> msg = "time_descriptor (3) not yet supported"%string) /\
    (t <> 0%Z -> t <> 1%Z -> t <> 3%Z ->
     msg = ("unknown splice_descriptor tag (" ++ dec t ++ ")")%string) /\
    class_of (SCTE35_SpliceInfoSectionException msg) =
      SCTE35_SpliceInfoSectionException_class.
Proof.
  intros G L N t.
  assert (E : forall e,
             parse_splice_descriptor length s = Raise e ->
             descriptors_loop (S fuel) length results s = Raise e).
  { intros e He. rewrite descriptors_loop_step by assumption.
    apply bind_Raise, He. }
  assert (P : parse_splice_descriptor length s =
              if (t =? 0)%Z then
                Raise (SCTE35_SpliceInfoSectionException
                         ("avail_descriptor (" ++ dec t ++ ") not yet supported"))
              else if (t =? 1)%Z then
                Raise (SCTE35_SpliceInfoSectionException
                         ("DTMF_descriptor (" ++ dec t ++ ") not yet supported"))
              else if (t =? 3)%Z then
                Raise (SCTE35_SpliceInfoSectionException
                         ("time_descriptor (" ++ dec t ++ ") not yet supported"))
              else
                Raise (SCTE35_SpliceInfoSectionException
                         ("unknown splice_descriptor tag (" ++ dec t ++ ")"))).
  { unfold parse_splice_descriptor. do 3 run_step. fold t.
    destruct (Z.eqb_spec t 0); [reflexivity|].
    destruct (Z.eqb_spec t 1); [reflexivity|].
    destruct (Z.eqb_spec t 2); [contradiction|].
    destruct (Z.eqb_spec t 3); reflexivity. }
  destruct (Z.eqb_spec t 0) as [E0|N0].
  { eexists. split; [apply E, P|]. rewrite E0.
    repeat split; intros; (reflexivity || lia). }
  destruct (Z.eqb_spec t 1) as [E1|N1].
  { eexists. split; [apply E, P|]. rewrite E1.
    repeat split; intros; (reflexivity || lia). }
  destruct (Z.eqb_spec t 3) as [E3|N3].
  { eexists. split; [apply E, P|]. rewrite E3.
    repeat split; intros; (reflexivity || lia). }
  eexists. split; [apply E, P|].
  repeat split; intros; (reflexivity || lia).
Qed.

Lemma descriptor_tag_errors_witness :
  descriptors_loop 6 6 []
    {| bits := bits_of_bytes (time_signal_marker x06 x00 []); pos := 136 |} =
    Raise (SCTE35_SpliceInfoSectionException "avail_descriptor (0) not yet supported") /\
  descriptors_loop 6 6 []
    {| bits := bits_of_bytes (time_signal_marker x06 xff []); pos := 136 |} =
    Raise (SCTE35_SpliceInfoSectionException "unknown splice_descriptor tag (255)").
Proof.
  split.
  - destruct (descriptor_tag_errors 5 6 []
                {| bits := bits_of_bytes (time_signal_marker x06 x00 []); pos := 136 |})
      as (msg & E & M0 & _); [lia | cbn; lia | discriminate |].
    rewrite E, M0; reflexivity.
  - destruct (descriptor_tag_errors 5 6 []
                {| bits := bits_of_bytes (time_signal_marker x06 xff []); pos := 136 |})
      as (msg & E & _ & _ & _ & M & _); [lia | cbn; lia | discriminate |].
    rewrite E, M; [reflexivity | discriminate ..].
Defined.

(** C3 (as stated) fails: a known-but-unimplemented tag (0) and an unknown
    tag (255) end the decode with exceptions of one and the same class,
    which differ in nothing but their message. *)
Lemma descriptor_tag_errors_share_class :
  exists msg0 msg255,
    parse (time_signal_marker x06 x00 []) =
      Raise (SCTE35_SpliceInfoSectionException msg0) /\
    parse (time_signal_marker x06 xff []) =
      Raise (SCTE35_SpliceInfoSectionException msg255) /\
    class_of (SCTE35_SpliceInfoSectionException msg0) =
      class_of (SCTE35_SpliceInfoSectionException msg255) /\
    msg0 <> msg255.
Proof.
  exists "avail_descriptor (0) not yet supported"%string,
         "unknown splice_descriptor tag (255)"%string.
  repeat split; try (vm_compute; reflexivity). discriminate.
Qed.

(** ** The remaining-byte counter *)

Lemma descriptors_loop_done (fuel : nat) (length : Z)
    (results : list SCTE35_SegmentationDescriptor) (s : BitString) :
  (length <= 0)%Z ->
  descriptors_loop fuel length results s = Return (results, length) s.
Proof.
  intros H. destruct fuel; cbn [descriptors_loop];
    (destruct (Z.gtb_spec length 0); [lia|reflexivity]).
Qed.

(** C4 (as the code has it).  The loop hands back its list only when the
    counter is zero or negative at the loop test, and the counter at exit is
    the declared length minus the bytes the loop consumed.  The test lets
    every counter that is zero or negative end the loop, without requiring
    it to be exactly zero: a descriptor that parses and leaves the counter
    at zero or below ends the loop, and [__parse_splice_descriptors] returns
    it, however far below zero the counter has gone. *)
Theorem descriptor_loop_exit :
  (forall (fuel : nat) (length : Z) (results ds : list SCTE35_SegmentationDescriptor)
          (length' : Z) (s s' : BitString),
      descriptors_loop fuel length results s = Return (ds, length') s' ->
      (length' <= 0)%Z /\
      (8 * length' = 8 * length - (Z.of_nat (pos s') - Z.of_nat (pos s)))%Z /\
      bits s' = bits s) /\
  (forall (fuel : nat) (length : Z) (results : list SCTE35_SegmentationDescriptor)
          (s : BitString),
      (length <= 0)%Z ->
      descriptors_loop fuel length results s = Return (results, length) s) /\
  (forall (fuel : nat) (length : Z) (results : list SCTE35_SegmentationDescriptor)
          (s s1 : BitString) (d : SCTE35_SegmentationDescriptor) (length1 : Z),
      (0 < length)%Z ->
      parse_splice_descriptor length s = Return (d, length1) s1 ->
      (length1 <= 0)%Z ->
      descriptors_loop (S fuel) length results s =
        Return (results ++ [d], length1) s1) /\
  (forall (length : Z) (s s1 : BitString) (d : SCTE35_SegmentationDescriptor)
          (length1 : Z),
      (0 < length)%Z ->
      parse_splice_descriptor length s = Return (d, length1) s1 ->
      (length1 <= 0)%Z ->
      parse_splice_descriptors length s = Return [d] s1).
Proof.
  assert (Step : forall (fuel : nat) (length : Z)
                        (results : list SCTE35_SegmentationDescriptor)
                        (s s1 : BitString) (d : SCTE35_SegmentationDescriptor)
                        (length1 : Z),
             (0 < length)%Z ->
             parse_splice_descriptor length s = Return (d, length1) s1 ->
             (length1 <= 0)%Z ->
             descriptors_loop (S fuel) length results s =
               Return (results ++ [d], length1) s1).
  { intros fuel length results s s1 d length1 G H L.
    rewrite descriptors_loop_step by assumption.
    rewrite (bind_Return _ _ _ _ _ H). cbn [fst snd].
    apply descriptors_loop_done, L. }
  split; [|split; [|split]].
  - intros fuel length results ds length' s s' H.
    apply descriptors_loop_inv in H.
    destruct H as (Hl & Hb & Hp & _). repeat split; [assumption|lia|assumption].
  - intros fuel length results s L. apply descriptors_loop_done, L.
  - exact Step.
  - intros length s s1 d length1 G H L. unfold parse_splice_descriptors.
    destruct (Z.to_nat length) as [|fuel] eqn:F; [lia|].
    unfold fmap. rewrite (bind_Return _ _ _ _ _ (Step fuel length [] s s1 d length1 G H L)).
    reflexivity.
Qed.

Lemma descriptor_loop_exit_witness :
  descriptors_loop 1 1 []
    {| bits := bits_of_bytes short_loop_marker; pos := 136 |} =
    Return ([{| descriptor_length := 9;
                  splice_descriptor_tag := 2;
                  identifier := "43554549";
                  segmentation_event_id := 1;
                  segmentation_event_cancel_indicator := true;
                  program_segmentation_flag := None;
                  segmentation_duration_flag := None;
                  delivery_not_restricted_flag := None;
                  web_delivery_allowed_flag := None;
                  no_regional_blackout_flag := None;
                  archive_allowed_flag := None;
                  device_restrictions := None;
                  segmentation_component_count := None;
                  segmentation_components := None;
                  segmentation_duration := None;
                  segmentation_upid_type := None;
                  segmentation_upid_length := None;
                  segmentation_upid := None;
                  segmentation_type_id := None;
                  segment_num := None;
                  segments_expected := None;
                  sub_segment_num := None;
                  sub_segments_expected := None |}], (-10)%Z)
           {| bits := bits_of_bytes short_loop_marker; pos := 224 |} /\
  (-10 <= 0)%Z /\
  parse_splice_descriptors 1
    {| bits := bits_of_bytes short_loop_marker; pos := 136 |} =
    Return [{| descriptor_length := 9;
                  splice_descriptor_tag := 2;
                  identifier := "43554549";
                  segmentation_event_id := 1;
                  segmentation_event_cancel_indicator := true;
                  program_segmentation_flag := None;
                  segmentation_duration_flag := None;
                  delivery_not_restricted_flag := None;
                  web_delivery_allowed_flag := None;
                  no_regional_blackout_flag := None;
                  archive_allowed_flag := None;
                  device_restrictions := None;
                  segmentation_component_count := None;
                  segmentation_components := None;
                  segmentation_duration := None;
                  segmentation_upid_type := None;
                  segmentation_upid_length := None;
                  segmentation_upid := None;
                  segmentation_type_id := None;
                  segment_num := None;
                  segments_expected := None;
                  sub_segment_num := None;
                  sub_segments_expected := None |}]
           {| bits := bits_of_bytes short_loop_marker; pos := 224 |}.
Proof.
  destruct descriptor_loop_exit as (A & _ & C & D).
  assert (H : parse_splice_descriptor 1
                {| bits := bits_of_bytes short_loop_marker; pos := 136 |} =
              Return ({| descriptor_length := 9;
                      splice_descriptor_tag := 2;
                      identifier := "43554549";
                      segmentation_event_id := 1;
                      segmentation_event_cancel_indicator := true;
                      program_segmentation_flag := None;
                      segmentation_duration_flag := None;
                      delivery_not_restricted_flag := None;
                      web_delivery_allowed_flag := None;
                      no_regional_blackout_flag := None;
                      archive_allowed_flag := None;
                      device_restrictions := None;
                      segmentation_component_count := None;
                      segmentation_components := None;
                      segmentation_duration := None;
                      segmentation_upid_type := None;
                      segmentation_upid_length := None;
                      segmentation_upid := None;
                      segmentation_type_id := None;
                      segment_num := None;
                      segments_expected := None;
                      sub_segment_num := None;
                      sub_segments_expected := None |}, (-10)%Z)
                     {| bits := bits_of_bytes short_loop_marker; pos := 224 |})
    by (vm_compute; reflexivity).
  pose proof (C 0 1%Z [] _ _ _ _ ltac:(lia) H ltac:(lia)) as HC.
  cbn [app] in HC.
  split; [exact HC|]. split; [apply (A _ _ _ _ _ _ _ HC)|].
  apply (D 1%Z _ _ _ _ ltac:(lia) H). lia.
Defined.

(** C4 (as stated) fails: with a declared loop length of one byte and an
    11-byte cancelled segmentation descriptor the counter leaves the loop at
    -10, and the decode succeeds with that descriptor in its list. *)
Lemma negative_counter_is_accepted :
  exists ds s1 sis s',
    descriptors_loop (Z.to_nat 1) 1 []
      {| bits := bits_of_bytes short_loop_marker; pos := 136 |} =
      Return (ds, (-10)%Z) s1 /\
    parse short_loop_marker = Return sis s' /\
    splice_descriptor_loop_length sis = 1%Z /\
    splice_descriptors sis = Some ds /\
    List.length ds = 1 /\
    (-10 <> 0)%Z.
Proof.
  do 4 eexists.
  split; [vm_compute; reflexivity|].
  split; [vm_compute; reflexivity|].
  repeat split. discriminate.
Qed.

(** ** Segmentation descriptor components *)

Lemma bind_assoc {A B C} (m : M A) (f : A -> M B) (k : B -> M C) (s : BitString) :
  bind (bind m f) k s = bind m (fun a => bind (f a) k) s.
Proof. unfold bind. destruct (m s); reflexivity. Qed.

(** An iteration that meets a segmentation descriptor which is not
    cancelled, has [program_segmentation_flag] clear and declares at least
    one component raises: the first component's tag is read, and assigning
    it to the [dict] fails before anything is stored. *)
Lemma segmentation_component_aborts (fuel : nat) (length : Z)
    (results : list SCTE35_SegmentationDescriptor) (s : BitString) :
  (0 < length)%Z ->
  pos s + 104 <= List.length (bits s) ->
  uint_at (bits s) (pos s) 8 = 2%Z ->
  bool_at (bits s) (pos s + 80) = false ->
  bool_at (bits s) (pos s + 88) = false ->
  (1 <= uint_at (bits s) (pos s + 96) 8)%Z ->
  descriptors_loop (S fuel) length results s =
    if pos s + 112 <=? List.length (bits s)
    then Raise (AttributeError "'dict' object has no attribute 'component_tag'")
    else Raise ReadError.
Proof.
  intros G L T C P N.
  rewrite descriptors_loop_step by assumption.
  assert (E : parse_splice_descriptor length s =
              if pos s + 112 <=? List.length (bits s)
              then Raise (AttributeError "'dict' object has no attribute 'component_tag'")
              else Raise ReadError).
  { unfold parse_splice_descriptor. do 3 run_step. rewrite T.
    cbn [Z.eqb Pos.eqb]. unfold parse_segmentation_descriptor.
    do 3 run_step.
    replace (pos s + 8 + 8 + 32 + 32) with (pos s + 80) by lia. rewrite C.
    cbn [negb]. do 3 run_step.
    replace (pos s + 80 + 1 + 7) with (pos s + 88) by lia. rewrite P.
    destruct (bool_at (bits s) (pos s + 88 + 1 + 1)); cbn [negb];
      repeat (rewrite ?bind_assoc; run_step; cbn beta iota zeta);
      (replace (pos s + 88 + 1 + 1 + 1 + 5) with (pos s + 96) by lia);
      (replace (pos s + 88 + 1 + 1 + 1 + 1 + 1 + 1 + 2) with (pos s + 96) by lia);
      (destruct (Z.to_nat (uint_at (bits s) (pos s + 96) 8)) as [|k] eqn:K; [lia|]);
      rewrite !bind_assoc;
      (destruct (Nat.leb_spec (pos s + 112) (List.length (bits s))) as [L2|L2]);
      apply bind_Raise;
      rewrite parse_segmentation_components_raises, pos_seek, bits_seek;
      (replace (pos s + 96 + 8 + 8) with (pos s + 112) by lia);
      [ apply Nat.leb_le in L2 | apply Nat.leb_gt in L2
      | apply Nat.leb_le in L2 | apply Nat.leb_gt in L2 ];
      rewrite L2; reflexivity. }
  revert E.
  destruct (pos s + 112 <=? List.length (bits s)); intros E; apply bind_Raise; exact E.
Qed.

Lemma parse_splice_descriptors_inv (length : Z) (s s' : BitString)
    (ds : list SCTE35_SegmentationDescriptor) :
  parse_splice_descriptors length s = Return ds s' -> Forall no_components ds.
Proof.
  unfold parse_splice_descriptors. intros H.
  apply fmap_inv in H. destruct H as ([ds' len'] & H & ->).
  apply descriptors_loop_inv in H. cbn [fst]. apply H. constructor.
Qed.

Lemma parse_descriptor_loop_inv (h : SectionHeader) (command_type : Z)
    (command : option SpliceCommand) (s s' : BitString) (sis : SCTE35_SpliceInfoSection) :
  parse_descriptor_loop h command_type command s = Return sis s' ->
  header sis = h /\ splice_command_type sis = command_type /\
  splice_command sis = command /\
  forall ds, splice_descriptors sis = Some ds -> Forall no_components ds.
Proof.
  unfold parse_descriptor_loop. intros H.
  inv_step H. apply bind_inv in H. destruct H as (ds & s1 & Hd & H).
  inv_ret H. cbn [header splice_command_type splice_command splice_descriptors].
  repeat split. intros l ->.
  destruct (_ >? _)%Z.
  - apply fmap_inv in Hd. destruct Hd as (l' & Hd & E). injection E as ->.
    apply parse_splice_descriptors_inv in Hd. exact Hd.
  - apply ret_inv in Hd. destruct Hd as [? _]. discriminate.
Qed.

Lemma parse_inv (input_bytes : list byte) (sis : SCTE35_SpliceInfoSection) (s' : BitString) :
  parse input_bytes = Return sis s' ->
  exists command s2,
    parse_splice_command (uint_at (bits_of_bytes input_bytes) 104 8)
      {| bits := bits_of_bytes input_bytes; pos := 112 |} = Return command s2 /\
    parse_descriptor_loop (header_at (bits_of_bytes input_bytes) 0)
      (uint_at (bits_of_bytes input_bytes) 104 8) command s2 = Return sis s'.
Proof.
  rewrite parse_unfold. intros H.
  apply bind_inv in H. destruct H as (h & s1 & Hh & H).
  apply parse_section_header_inv in Hh. destruct Hh as (_ & _ & -> & ->).
  cbn [BitString_of_bytes pos bits seek Nat.add] in H.
  unfold parse_after_header in H. inv_step H.
  apply bind_inv in H. destruct H as (command & s2 & Hc & H).
  exists command, s2. split; assumption.
Qed.

(** C10.  An iteration of the descriptor loop that finds a segmentation
    descriptor (tag 2) that is not cancelled, has
    [program_segmentation_flag] clear and declares one component or more
    raises at the first component, [AttributeError] when the component's tag
    byte is there and [ReadError] when it is not.  Hence every descriptor of
    a successfully decoded section is a segmentation descriptor without
    components: no list, or a declared count of 0 and the empty list. *)
Theorem segmentation_components_unreachable :
  (forall (fuel : nat) (length : Z) (results : list SCTE35_SegmentationDescriptor)
          (s : BitString),
      (0 < length)%Z ->
      pos s + 104 <= List.length (bits s) ->
      uint_at (bits s) (pos s) 8 = 2%Z ->
      bool_at (bits s) (pos s + 80) = false ->
      bool_at (bits s) (pos s + 88) = false ->
      (1 <= uint_at (bits s) (pos s + 96) 8)%Z ->
      exists e, descriptors_loop (S fuel) length results s = Raise e /\
                (e = AttributeError "'dict' object has no attribute 'component_tag'" \/
                 e = ReadError)) /\
  (forall (input_bytes : list byte) (sis : SCTE35_SpliceInfoSection) (s' : BitString)
          (ds : list SCTE35_SegmentationDescriptor) (d : SCTE35_SegmentationDescriptor),
      parse input_bytes = Return sis s' ->
      splice_descriptors sis = Some ds ->
      In d ds ->
      splice_descriptor_tag d = 2%Z /\
      (segmentation_components d = None \/ segmentation_components d = Some []) /\
      (segmentation_component_count d = None \/ segmentation_component_count d = Some 0%Z)).
Proof.
  split.
  - intros fuel length results s G L T C P N.
    rewrite segmentation_component_aborts by assumption.
    destruct (_ <=? _); eexists; (split; [reflexivity|auto]).
  - intros input_bytes sis s' ds d H Hds Hin.
    apply parse_inv in H. destruct H as (command & s2 & _ & H).
    apply parse_descriptor_loop_inv in H. destruct H as (_ & _ & _ & H).
    specialize (H ds Hds). rewrite Forall_forall in H. specialize (H d Hin).
    destruct H as (Ht & [[Hc Hl]|(_ & Hc & Hl)]); rewrite Hc, Hl; auto.
Qed.

Lemma segmentation_components_unreachable_witness :
  (exists e,
     descriptors_loop 1 24 []
       {| bits := bits_of_bytes one_component_marker; pos := 136 |} = Raise e) /\
  (exists sis s' d,
     parse no_component_marker = Return sis s' /\
     splice_descriptors sis = Some [d] /\
     segmentation_component_count d = Some 0%Z /\
     (segmentation_components d = None \/ segmentation_components d = Some [])).
Proof.
  destruct segmentation_components_unreachable as [A B]. split.
  - destruct (A 0 24%Z []
                {| bits := bits_of_bytes one_component_marker; pos := 136 |})
      as (e & E & _);
      [lia | cbn; lia | reflexivity | reflexivity | reflexivity
      | vm_compute; discriminate |].
    exists e. exact E.
  - assert (H : exists sis s' d, parse no_component_marker = Return sis s' /\
                  splice_descriptors sis = Some [d] /\
                  segmentation_component_count d = Some 0%Z)
      by (do 3 eexists; split; [vm_compute; reflexivity|split; reflexivity]).
    destruct H as (sis & s' & d & H & Hd & Hc).
    exists sis, s', d. repeat split; try assumption.
    apply (B no_component_marker sis s' [d] d H Hd). left. reflexivity.
Defined.

(** ** Truncated input *)

(** Neither way of moving the cursor leaves it beyond the end of the
    buffer. *)
Lemma read_within (n : nat) (s s' : BitString) (l : list bool) :
  read n s = Return l s' -> pos s' <= List.length (bits s').
Proof. intros H. apply read_inv in H. destruct H as (H & _ & ->). exact H. Qed.

Lemma advance_within (k : nat) (s s' : BitString) (u : unit) :
  advance k s = Return u s' -> pos s' <= List.length (bits s').
Proof. intros H. apply advance_inv in H. destruct H as (H & ->). exact H. Qed.

Lemma slice_app_prefix (l ext : list bool) (p n : nat) :
  p + n <= List.length l -> slice (l ++ ext) p n = slice l p n.
Proof.
  intros H. unfold slice. rewrite skipn_app, firstn_app, length_skipn.
  replace (n - (List.length l - p)) with 0 by lia.
  cbn [firstn]. apply app_nil_r.
Qed.

Lemma add_mod_8 (p n a b : nat) :
  p mod 8 = a -> (a + n) mod 8 = b -> (p + n) mod 8 = b.
Proof.
  intros <- <-. rewrite Nat.Div0.add_mod_idemp_l. reflexivity.
Qed.

Lemma truncates_ret {A} (x : A) (a : nat) : truncates (ret x) a a.
Proof.
  intros l ext p Hl Hp Hle. cbn. right. auto.
Qed.

Lemma truncates_raise {A} (e : exn) (a b : nat) : truncates (@raise A e) a b.
Proof.
  intros l ext p Hl Hp Hle. cbn. left. reflexivity.
Qed.

Lemma truncates_bind {A B} (m : M A) (k : A -> M B) (a b c : nat) :
  truncates m a b -> (forall x, truncates (k x) b c) -> truncates (bind m k) a c.
Proof.
  intros Hm Hk l ext p Hl Hp Hle. specialize (Hm l ext p Hl Hp Hle).
  unfold bind at 1.
  destruct (m {| bits := l ++ ext; pos := p |}) as [x s1|e|].
  - destruct Hm as [Hm|(Hb & Ha & Hle1 & Hm)].
    + rewrite (bind_Raise _ _ _ _ Hm).
      destruct (k x s1); auto.
    + rewrite (bind_Return _ _ _ _ _ Hm).
      destruct s1 as [bs1 p1]. cbn [bits pos] in *. subst bs1.
      apply Hk; assumption.
  - destruct Hm as [Hm|Hm]; rewrite (bind_Raise _ _ _ _ Hm); auto.
  - exact I.
Qed.

Lemma truncates_fmap {A B} (f : A -> B) (m : M A) (a b : nat) :
  truncates m a b -> truncates (fmap f m) a b.
Proof.
  intros Hm. unfold fmap. eapply truncates_bind; [exact Hm|].
  intros x. apply truncates_ret.
Qed.

Lemma truncates_read (n a b : nat) :
  (a + n) mod 8 = b -> truncates (read n) a b.
Proof.
  intros Hb l ext p Hl Hp Hle. unfold read. cbn [bits pos seek].
  rewrite length_app.
  destruct (Nat.leb_spec (p + n) (List.length l + List.length ext)) as [L|L].
  - destruct (Nat.leb_spec (p + n) (List.length l)) as [L'|L'].
    + right. repeat split; try assumption.
      * eapply add_mod_8; eassumption.
      * rewrite slice_app_prefix by assumption. reflexivity.
    + left. reflexivity.
  - destruct (Nat.leb_spec (p + n) (List.length l)) as [L'|L']; [lia|].
    left. reflexivity.
Qed.

Lemma truncates_read_uint (n a b : nat) :
  (a + n) mod 8 = b -> truncates (read_uint n) a b.
Proof. intros H. apply truncates_fmap, truncates_read, H. Qed.

Lemma truncates_read_bool (a b : nat) :
  (a + 1) mod 8 = b -> truncates read_bool a b.
Proof. intros H. apply truncates_fmap, truncates_read, H. Qed.

Lemma truncates_read_hex (n a b : nat) :
  (a + n) mod 8 = b -> truncates (read_hex n) a b.
Proof. intros H. apply truncates_fmap, truncates_read, H. Qed.

Lemma truncates_read_bin (n a b : nat) :
  (a + n) mod 8 = b -> truncates (read_bin n) a b.
Proof. intros H. apply truncates_fmap, truncates_read, H. Qed.

(** A skip that stays inside a byte some bit of which has been read cannot
    leave a byte buffer: the [pos] setter never raises there. *)
Lemma truncates_advance (k a b : nat) :
  0 < a -> a + k <= 8 -> (a + k) mod 8 = b -> truncates (advance k) a b.
Proof.
  intros Ha Hk Hb l ext p Hl Hp Hle. unfold advance. cbn [bits pos seek].
  rewrite length_app.
  assert (L' : p + k <= List.length l).
  { pose proof (Nat.div_mod_eq p 8) as Dp.
    pose proof (Nat.div_mod_eq (List.length l) 8) as Dl.
    rewrite Hp in Dp. rewrite Hl in Dl.
    assert (p / 8 < List.length l / 8) by nia. nia. }
  destruct (Nat.leb_spec (p + k) (List.length l + List.length ext)) as [L|L]; [|lia].
  destruct (Nat.leb_spec (p + k) (List.length l)) as [_|L'']; [|lia].
  right. repeat split; try assumption.
  eapply add_mod_8; eassumption.
Qed.

Lemma upid_width_mod_8 (x : Z) : (0 + Z.to_nat (x * 8)) mod 8 = 0.
Proof.
  cbn [Nat.add]. replace (Z.to_nat (x * 8)) with (Z.to_nat x * 8) by lia.
  apply Nat.Div0.mod_mul.
Qed.

Ltac trunc_step :=
  match goal with
  | |- truncates (bind _ _) _ _ => eapply truncates_bind; [|intros ?]
  | |- truncates (fmap _ _) _ _ => apply truncates_fmap
  | |- truncates (read_hex (Z.to_nat (_ * 8))) _ _ =>
      apply truncates_read_hex, upid_width_mod_8
  | |- truncates (read_uint _) _ _ => apply truncates_read_uint; vm_compute; reflexivity
  | |- truncates read_bool _ _ => apply truncates_read_bool; vm_compute; reflexivity
  | |- truncates (read_hex _) _ _ => apply truncates_read_hex; vm_compute; reflexivity
  | |- truncates (read_bin _) _ _ => apply truncates_read_bin; vm_compute; reflexivity
  | |- truncates (advance _) _ _ =>
      apply truncates_advance; [lia | lia | vm_compute; reflexivity]
  | |- truncates (ret _) _ _ => apply truncates_ret
  | |- truncates (raise _) _ _ => apply truncates_raise
  | |- truncates (if ?b then _ else _) _ _ => destruct b
  | |- truncates (let '(_, _) := ?p in _) _ _ => destruct p
  end.

Lemma truncates_parse_section_header : truncates parse_section_header 0 0.
Proof.
  unfold parse_section_header, SCTE35_SpliceInfoSection_init. repeat trunc_step.
Qed.

Lemma truncates_parse_splice_time : truncates parse_splice_time 0 0.
Proof. unfold parse_splice_time. repeat trunc_step. Qed.

Lemma truncates_parse_break_duration : truncates parse_break_duration 0 0.
Proof. unfold parse_break_duration. repeat trunc_step. Qed.

Lemma truncates_parse_time_signal : truncates parse_time_signal 0 0.
Proof.
  unfold parse_time_signal. eapply truncates_bind; [apply truncates_parse_splice_time|].
  intros st. apply truncates_ret.
Qed.

Lemma truncates_parse_insert_components (count : nat) :
  forall (sif : bool) (acc : list Component),
    truncates (parse_insert_components count sif acc) 0 0.
Proof.
  induction count as [|count IH]; intros sif acc; cbn [parse_insert_components].
  - apply truncates_ret.
  - eapply truncates_bind; [trunc_step|intros t].
    eapply truncates_bind; [|intros st; apply IH].
    destruct sif; [apply truncates_fmap, truncates_parse_splice_time|apply truncates_ret].
Qed.

Lemma truncates_parse_splice_insert : truncates parse_splice_insert 0 0.
Proof.
  unfold parse_splice_insert.
  do 3 (eapply truncates_bind; [trunc_step|intros ?]).
  trunc_step; [|apply truncates_ret].
  do 5 (eapply truncates_bind; [trunc_step|intros ?]).
  eapply truncates_bind with (b := 0); [|intros st].
  { trunc_step; [apply truncates_fmap, truncates_parse_splice_time|apply truncates_ret]. }
  eapply truncates_bind with (b := 0); [|intros cc].
  { trunc_step; [|apply truncates_ret].
    eapply truncates_bind; [trunc_step|intros n].
    eapply truncates_bind; [apply truncates_parse_insert_components|intros cs].
    apply truncates_ret. }
  eapply truncates_bind with (b := 0); [|intros bd].
  { trunc_step; [apply truncates_fmap, truncates_parse_break_duration|apply truncates_ret]. }
  repeat trunc_step.
Qed.

Lemma truncates_parse_segmentation_components (count : nat) :
  forall (length : Z) (acc : list dict),
    truncates (parse_segmentation_components count length acc) 0 0.
Proof.
  induction count as [|count IH]; intros length acc;
    cbn [parse_segmentation_components].
  - apply truncates_ret.
  - eapply truncates_bind; [trunc_step|intros v].
    eapply truncates_bind with (b := 1); [apply truncates_raise|intros c].
    eapply truncates_bind; [trunc_step|intros u].
    eapply truncates_bind; [trunc_step|intros v'].
    eapply truncates_bind with (b := 0); [apply truncates_raise|intros c'].
    apply IH.
Qed.

Lemma truncates_parse_segmentation_descriptor (t dl : Z) (ident : string) (length : Z) :
  truncates (parse_segmentation_descriptor t dl ident length) 0 0.
Proof.
  unfold parse_segmentation_descriptor.
  do 3 (eapply truncates_bind; [trunc_step|intros ?]).
  trunc_step; [|apply truncates_ret].
  do 3 (eapply truncates_bind; [trunc_step|intros ?]).
  eapply truncates_bind with (b := 0); [|intros [[[web regional] archive] device]].
  { trunc_step; repeat trunc_step. }
  eapply truncates_bind with (b := 0); [|intros [[cnt comp_list] len2]].
  { trunc_step; [|apply truncates_ret].
    eapply truncates_bind; [trunc_step|intros n].
    eapply truncates_bind; [apply truncates_parse_segmentation_components|intros r].
    apply truncates_ret. }
  eapply truncates_bind with (b := 0); [|intros [seg_duration len3]].
  { trunc_step; repeat trunc_step. }
  do 6 (eapply truncates_bind; [trunc_step|intros ?]).
  eapply truncates_bind with (b := 0); [|intros [[sub_num sub_expected] len4]].
  { trunc_step; repeat trunc_step. }
  apply truncates_ret.
Qed.

Lemma truncates_parse_splice_descriptor (length : Z) :
  truncates (parse_splice_descriptor length) 0 0.
Proof.
  unfold parse_splice_descriptor.
  do 3 (eapply truncates_bind; [trunc_step|intros ?]).
  repeat (trunc_step; [apply truncates_raise|]).
  trunc_step; [apply truncates_parse_segmentation_descriptor|].
  trunc_step; apply truncates_raise.
Qed.

Lemma truncates_descriptors_loop (fuel : nat) :
  forall (length : Z) (results : list SCTE35_SegmentationDescriptor),
    truncates (descriptors_loop fuel length results) 0 0.
Proof.
  induction fuel as [|fuel IH]; intros length results; cbn [descriptors_loop];
    destruct (length >? 0)%Z; try apply truncates_ret.
  - intros l ext p _ _ _. exact I.
  - eapply truncates_bind; [apply truncates_parse_splice_descriptor|].
    intros r. apply IH.
Qed.

Lemma truncates_parse_after_header (h : SectionHeader) :
  truncates (parse_after_header h) 0 0.
Proof.
  unfold parse_after_header.
  eapply truncates_bind; [trunc_step|intros command_type].
  eapply truncates_bind with (b := 0); [|intros command].
  { unfold parse_splice_command.
    trunc_step; [apply truncates_fmap, truncates_parse_splice_insert|].
    trunc_step; [apply truncates_fmap, truncates_parse_time_signal|].
    apply truncates_raise. }
  unfold parse_descriptor_loop.
  eapply truncates_bind; [trunc_step|intros loop_length].
  eapply truncates_bind with (b := 0); [|intros ds; apply truncates_ret].
  trunc_step; [|apply truncates_ret].
  apply truncates_fmap. unfold parse_splice_descriptors.
  apply truncates_fmap, truncates_descriptors_loop.
Qed.

Lemma bits_of_bytes_app (l1 l2 : list byte) :
  bits_of_bytes (l1 ++ l2) = bits_of_bytes l1 ++ bits_of_bytes l2.
Proof. unfold bits_of_bytes. apply flat_map_app. Qed.

Lemma truncates_parse (input_bytes extra : list byte) :
  match parse (input_bytes ++ extra) with
  | Return sis s' =>
      parse input_bytes = Raise ReadError \/
      (pos s' <= 8 * List.length input_bytes /\
       parse input_bytes =
         Return sis {| bits := bits_of_bytes input_bytes; pos := pos s' |})
  | Raise e => parse input_bytes = Raise e \/ parse input_bytes = Raise ReadError
  | OutOfFuel => True
  end.
Proof.
  assert (T : truncates (bind parse_section_header parse_after_header) 0 0).
  { eapply truncates_bind; [apply truncates_parse_section_header|].
    apply truncates_parse_after_header. }
  specialize (T (bits_of_bytes input_bytes) (bits_of_bytes extra) 0).
  rewrite !parse_unfold. unfold BitString_of_bytes. rewrite bits_of_bytes_app.
  rewrite length_bits_of_bytes in T.
  assert (H8 : (8 * List.length input_bytes) mod 8 = 0).
  { rewrite Nat.mul_comm. apply Nat.Div0.mod_mul. }
  specialize (T H8 eq_refl (Nat.le_0_l _)).
  destruct (bind parse_section_header parse_after_header _) as [sis s'|e|];
    [|exact T|exact I].
  destruct T as [T|(_ & _ & L & T)]; [left; exact T|right; split; assumption].
Qed.

(** C5 (as the code has it).  Cutting bytes off the end of a buffer either
    leaves the outcome of the decode as it was (the same section at the same
    bit, or the same exception) or makes it raise [bitstring]'s own
    [ReadError], which is none of the decoder's exception classes: a buffer
    too short for a read of its decode ends in that exception, whatever the
    longer buffer would have decoded to.  In particular a buffer cut short
    of the last bit a successful decode read raises it.  A [read] that
    would pass the end of the buffer raises [ReadError], and the cursor
    never stands beyond the end: not after a [read], not after a skip, and
    not at the end of a successful decode. *)
Theorem truncated_input_raises_ReadError (input_bytes extra : list byte) :
  (parse input_bytes = Raise ReadError \/
   match parse (input_bytes ++ extra), parse input_bytes with
   | Return sis s', Return sis0 s0 =>
       sis0 = sis /\ pos s0 = pos s' /\ pos s' <= 8 * List.length input_bytes
   | Raise e, Raise e0 => e0 = e
   | _, _ => False
   end) /\
  decoder_class (class_of ReadError) = false /\
  (forall (sis : SCTE35_SpliceInfoSection) (s' : BitString),
      parse (input_bytes ++ extra) = Return sis s' ->
      8 * List.length input_bytes < pos s' ->
      parse input_bytes = Raise ReadError) /\
  (forall (sis : SCTE35_SpliceInfoSection) (s' : BitString),
      parse input_bytes = Return sis s' ->
      pos s' <= 8 * List.length input_bytes) /\
  (forall (n : nat) (s : BitString),
      List.length (bits s) < pos s + n -> read n s = Raise ReadError) /\
  (forall (n : nat) (s s' : BitString) (l : list bool),
      read n s = Return l s' -> pos s' <= List.length (bits s')) /\
  (forall (k : nat) (s s' : BitString) (u : unit),
      advance k s = Return u s' -> pos s' <= List.length (bits s')).
Proof.
  pose proof (truncates_parse input_bytes extra) as T.
  pose proof (parse_never_OutOfFuel (input_bytes ++ extra)) as N.
  split; [|split; [reflexivity|split; [|split; [|split; [exact read_short|split]]]]].
  - destruct (parse (input_bytes ++ extra)) as [sis s'|e|]; [| |contradiction].
    + destruct T as [T|[L T]]; [left; exact T|right].
      rewrite T. cbn [pos]. repeat split. exact L.
    + destruct T as [T|T]; [right; rewrite T; reflexivity|left; exact T].
  - intros sis s' H Hlt. rewrite H in T.
    destruct T as [T|[L _]]; [exact T|lia].
  - intros sis s' H.
    pose proof (truncates_parse input_bytes []) as T0.
    rewrite app_nil_r, H in T0.
    destruct T0 as [T0|[L _]]; [congruence|exact L].
  - exact read_within.
  - exact advance_within.
Qed.

Lemma truncated_input_raises_ReadError_witness :
  parse (firstn 20 example_marker) = Raise ReadError /\
  parse (firstn 22 (time_signal_marker x06 xff [])) = Raise ReadError.
Proof.
  split.
  - destruct (truncated_input_raises_ReadError
                (firstn 20 example_marker) (skipn 20 example_marker))
      as (_ & _ & B & _).
    assert (H : exists sis s',
               parse (firstn 20 example_marker ++ skipn 20 example_marker) =
                 Return sis s' /\ pos s' = 288)
      by (do 2 eexists; split; vm_compute; reflexivity).
    destruct H as (sis & s' & H & Hp).
    apply (B sis s' H). rewrite Hp. cbn. lia.
  - destruct (truncated_input_raises_ReadError
                (firstn 22 (time_signal_marker x06 xff []))
                (skipn 22 (time_signal_marker x06 xff [])))
      as ([A|A] & _); [exact A|].
    vm_compute in A. discriminate A.
Defined.

(** C5 (as stated) fails: the example marker cut to its first 20 bytes, and
    the empty buffer, end the decode with [bitstring]'s [ReadError], an
    exception outside the classes the decoder declares. *)
Lemma truncated_input_is_unclassified :
  parse (firstn 20 example_marker) = Raise ReadError /\
  parse [] = Raise ReadError /\
  decoder_class (class_of ReadError) = false.
Proof. repeat split. Qed.


(** * Further properties of the decoder *)

(** ** Bytes after the section *)

Lemma truncates_parse_section :
  truncates (bind parse_section_header parse_after_header) 0 0.
Proof.
  eapply truncates_bind; [apply truncates_parse_section_header|].
  apply truncates_parse_after_header.
Qed.

Lemma truncates_at_bytes (input_bytes extra : list byte) :
  match parse (input_bytes ++ extra) with
  | Return sis s' =>
      parse input_bytes = Raise ReadError \/
      (bits s' = bits_of_bytes (input_bytes ++ extra) /\
       parse input_bytes =
         Return sis {| bits := bits_of_bytes input_bytes; pos := pos s' |})
  | Raise e => parse input_bytes = Raise e \/ parse input_bytes = Raise ReadError
  | OutOfFuel => False
  end.
Proof.
  pose proof (truncates_parse_section (bits_of_bytes input_bytes)
                (bits_of_bytes extra) 0) as T.
  pose proof (parse_never_OutOfFuel (input_bytes ++ extra)) as N.
  rewrite !parse_unfold in *. unfold BitString_of_bytes in *.
  rewrite bits_of_bytes_app in *.
  rewrite length_bits_of_bytes in T.
  assert (H8 : (8 * List.length input_bytes) mod 8 = 0).
  { rewrite Nat.mul_comm. apply Nat.Div0.mod_mul. }
  specialize (T H8 eq_refl (Nat.le_0_l _)).
  destruct (bind parse_section_header parse_after_header
              {| bits := bits_of_bytes input_bytes ++ bits_of_bytes extra; pos := 0 |})
    as [sis s'|e|]; [|exact T|apply N; reflexivity].
  destruct T as [T|(B & _ & _ & T)]; [left; exact T|right; split; assumption].
Qed.

(** X1.  Whatever follows the bytes a successful decode has read is never
    looked at: with any bytes appended to the buffer (the CRC, a second
    message) the decode returns the same section and stops at the same
    bit. *)
Theorem parse_ignores_trailing_bytes (input_bytes extra : list byte)
    (sis : SCTE35_SpliceInfoSection) (s' : BitString) :
  parse input_bytes = Return sis s' ->
  parse (input_bytes ++ extra) =
    Return sis {| bits := bits_of_bytes (input_bytes ++ extra); pos := pos s' |}.
Proof.
  intros H. pose proof (truncates_at_bytes input_bytes extra) as T.
  destruct (parse (input_bytes ++ extra)) as [sis2 s2|e|]; [|exfalso|contradiction].
  - destruct T as [T|[B T]]; [congruence|].
    rewrite H in T. injection T as -> ->. cbn [pos].
    destruct s2 as [b2 p2]. cbn [bits pos] in *. subst b2. reflexivity.
  - destruct T as [T|T]; congruence.
Qed.

Lemma parse_ignores_trailing_bytes_witness :
  exists sis,
    parse (firstn 36 example_marker ++ skipn 36 example_marker) =
      Return sis {| bits := bits_of_bytes example_marker; pos := 288 |}.
Proof.
  assert (H : exists sis s', parse (firstn 36 example_marker) = Return sis s' /\ pos s' = 288)
    by (do 2 eexists; split; vm_compute; reflexivity).
  destruct H as (sis & s' & H & Hp). exists sis.
  rewrite (parse_ignores_trailing_bytes _ (skipn 36 example_marker) _ _ H).
  rewrite Hp. reflexivity.
Defined.

(** X2.  An exception other than [ReadError] does not depend on what follows
    either: if the decode of a buffer raises it, so does the decode of every
    extension of the buffer. *)
Theorem parse_error_ignores_trailing_bytes (input_bytes extra : list byte) (e : exn) :
  parse input_bytes = Raise e ->
  e <> ReadError ->
  parse (input_bytes ++ extra) = Raise e.
Proof.
  intros H N. pose proof (truncates_at_bytes input_bytes extra) as T.
  destruct (parse (input_bytes ++ extra)) as [sis2 s2|e2|]; [exfalso| |contradiction].
  - destruct T as [T|[_ T]]; congruence.
  - destruct T as [T|T]; congruence.
Qed.

Lemma parse_error_ignores_trailing_bytes_witness :
  parse ([xfc; x30; x16; x00; x00; x00; x00; x00; x00; x00; xff; xf0; x01; x07]
           ++ [x00; x00]) =
    Raise (SCTE35_SpliceInfoSectionException "splice_command_type: 7 not yet supported").
Proof.
  apply parse_error_ignores_trailing_bytes; [reflexivity|discriminate].
Defined.

(** ** Byte alignment and the exceptions that can escape *)

Lemma aligned_ret {A} (x : A) (a : nat) : aligned (ret x) a a 0.
Proof.
  intros l p Hl Hp Hle. cbn. repeat split; try assumption; lia.
Qed.

Lemma aligned_raise {A} (e : exn) (a b k : nat) :
  escapes e -> aligned (@raise A e) a b k.
Proof. intros He l p Hl Hp Hle. exact He. Qed.

Lemma aligned_bind {A B} (m : M A) (f : A -> M B) (a b c k1 k2 k : nat) :
  aligned m a b k1 -> (forall x, aligned (f x) b c k2) -> k <= k1 + k2 ->
  aligned (bind m f) a c k.
Proof.
  intros Hm Hf Hk l p Hl Hp Hle. specialize (Hm l p Hl Hp Hle).
  unfold bind.
  destruct (m {| bits := l; pos := p |}) as [x [b1 p1]|e|]; [|exact Hm|exact I].
  cbn [bits pos] in Hm. destruct Hm as (-> & Hb & Hk1 & Hle1).
  specialize (Hf x l p1 Hl Hb Hle1).
  destruct (f x {| bits := l; pos := p1 |}) as [y s2|e|]; [|exact Hf|exact I].
  destruct Hf as (? & ? & ? & ?). repeat split; try assumption; lia.
Qed.

Lemma aligned_weaken {A} (m : M A) (a b k k' : nat) :
  aligned m a b k -> k' <= k -> aligned m a b k'.
Proof.
  intros Hm Hk l p Hl Hp Hle. specialize (Hm l p Hl Hp Hle).
  destruct (m {| bits := l; pos := p |}) as [x s'|e|]; [|exact Hm|exact I].
  destruct Hm as (? & ? & ? & ?). repeat split; try assumption; lia.
Qed.

Lemma aligned_if {A} (c : bool) (m1 m2 : M A) (a b k1 k2 : nat) :
  aligned m1 a b k1 -> aligned m2 a b k2 ->
  aligned (if c then m1 else m2) a b (Nat.min k1 k2).
Proof.
  intros H1 H2. destruct c; eapply aligned_weaken; eauto; lia.
Qed.

Lemma aligned_fmap {A B} (f : A -> B) (m : M A) (a b k : nat) :
  aligned m a b k -> aligned (fmap f m) a b k.
Proof.
  intros Hm. unfold fmap. eapply aligned_bind; [exact Hm| |].
  - intros x. apply aligned_ret.
  - lia.
Qed.

Lemma aligned_read (n a b : nat) :
  (a + n) mod 8 = b -> aligned (read n) a b n.
Proof.
  intros Hb l p Hl Hp Hle. unfold read. cbn [bits pos seek].
  destruct (Nat.leb_spec (p + n) (List.length l)) as [L|L].
  - cbn [bits pos seek]. repeat split; try reflexivity; try lia.
    eapply add_mod_8; eassumption.
  - constructor.
Qed.

Lemma aligned_read_uint (n a b : nat) :
  (a + n) mod 8 = b -> aligned (read_uint n) a b n.
Proof. intros H. apply aligned_fmap, aligned_read, H. Qed.

Lemma aligned_read_bool (a b : nat) :
  (a + 1) mod 8 = b -> aligned read_bool a b 1.
Proof. intros H. apply aligned_fmap, aligned_read, H. Qed.

Lemma aligned_read_hex (n a b : nat) :
  (a + n) mod 8 = b -> aligned (read_hex n) a b n.
Proof. intros H. apply aligned_fmap, aligned_read, H. Qed.

Lemma aligned_read_bin (n a b : nat) :
  (a + n) mod 8 = b -> aligned (read_bin n) a b n.
Proof. intros H. apply aligned_fmap, aligned_read, H. Qed.

Lemma aligned_advance (k a b : nat) :
  0 < a -> a + k <= 8 -> (a + k) mod 8 = b -> aligned (advance k) a b k.
Proof.
  intros Ha Hk Hb l p Hl Hp Hle. unfold advance. cbn [bits pos seek].
  assert (L' : p + k <= List.length l).
  { pose proof (Nat.div_mod_eq p 8) as Dp.
    pose proof (Nat.div_mod_eq (List.length l) 8) as Dl.
    rewrite Hp in Dp. rewrite Hl in Dl.
    assert (p / 8 < List.length l / 8) by nia. nia. }
  destruct (Nat.leb_spec (p + k) (List.length l)) as [_|L'']; [|lia].
  cbn [bits pos seek]. repeat split; try reflexivity; try lia.
  eapply add_mod_8; eassumption.
Qed.

Create HintDb aligned.

Ltac bits_bound :=
  match goal with
  | |- ?k <= _ => tryif is_evar k then apply le_n else (cbn; lia)
  end.

Ltac aligned_step :=
  match goal with
  | |- aligned (bind _ _) _ _ _ => eapply aligned_bind; [|intros ?|]
  | |- aligned (fmap _ _) _ _ _ => apply aligned_fmap
  | |- aligned (read_hex (Z.to_nat (_ * 8))) _ _ _ =>
      eapply aligned_weaken;
      [apply aligned_read_hex, upid_width_mod_8|apply Nat.le_0_l]
  | |- aligned (read_uint _) _ _ _ => apply aligned_read_uint; vm_compute; reflexivity
  | |- aligned read_bool _ _ _ => apply aligned_read_bool; vm_compute; reflexivity
  | |- aligned (read_hex _) _ _ _ => apply aligned_read_hex; vm_compute; reflexivity
  | |- aligned (read_bin _) _ _ _ => apply aligned_read_bin; vm_compute; reflexivity
  | |- aligned (advance _) _ _ _ =>
      apply aligned_advance; [lia | lia | vm_compute; reflexivity]
  | |- aligned (ret _) _ _ _ => apply aligned_ret
  | |- aligned (if _ then _ else _) _ _ _ => eapply aligned_if
  | |- aligned (let '(_, _) := ?p in _) _ _ _ => destruct p
  | |- aligned _ _ _ _ => solve [eauto with aligned]
  | |- _ <= _ => bits_bound
  end.

Lemma aligned_SCTE35_SpliceInfoSection_init (table_id : Z) :
  aligned (SCTE35_SpliceInfoSection_init table_id) 0 0 0.
Proof.
  unfold SCTE35_SpliceInfoSection_init.
  destruct (Z.eqb_spec table_id 0xfc); [apply aligned_ret|].
  apply aligned_raise. constructor. assumption.
Qed.

#[local] Hint Resolve aligned_SCTE35_SpliceInfoSection_init : aligned.

Lemma aligned_parse_section_header : aligned parse_section_header 0 0 104.
Proof. unfold parse_section_header. repeat aligned_step. Qed.

Lemma aligned_parse_splice_time : aligned parse_splice_time 0 0 8.
Proof. unfold parse_splice_time. repeat aligned_step. Qed.

Lemma aligned_parse_break_duration : aligned parse_break_duration 0 0 40.
Proof. unfold parse_break_duration. repeat aligned_step. Qed.

#[local] Hint Resolve aligned_parse_section_header aligned_parse_splice_time
  aligned_parse_break_duration : aligned.

Lemma aligned_parse_time_signal : aligned parse_time_signal 0 0 8.
Proof. unfold parse_time_signal. repeat aligned_step. Qed.

Lemma aligned_parse_insert_components (count : nat) :
  forall (sif : bool) (acc : list Component),
    aligned (parse_insert_components count sif acc) 0 0 0.
Proof.
  induction count as [|count IH]; intros sif acc; cbn [parse_insert_components].
  - apply aligned_ret.
  - eapply aligned_bind; [aligned_step|intros t|].
    + eapply aligned_bind; [repeat aligned_step|intros st; apply IH|apply le_n].
    + lia.
Qed.

#[local] Hint Resolve aligned_parse_time_signal aligned_parse_insert_components : aligned.

Lemma aligned_parse_splice_insert : aligned parse_splice_insert 0 0 40.
Proof. unfold parse_splice_insert. repeat aligned_step. Qed.

Lemma aligned_parse_segmentation_components (count : nat) (length : Z) (acc : list dict) :
  aligned (parse_segmentation_components count length acc) 0 0 0.
Proof.
  destruct count as [|count].
  - apply aligned_ret.
  - intros l p Hl Hp Hle. rewrite parse_segmentation_components_raises.
    destruct (_ <=? _); constructor.
Qed.

#[local] Hint Resolve aligned_parse_splice_insert aligned_parse_segmentation_components
  : aligned.

Lemma aligned_parse_segmentation_descriptor (t dl : Z) (ident : string) (length : Z) :
  aligned (parse_segmentation_descriptor t dl ident length) 0 0 40.
Proof. unfold parse_segmentation_descriptor. repeat aligned_step. Qed.

#[local] Hint Resolve aligned_parse_segmentation_descriptor : aligned.

Lemma aligned_parse_splice_descriptor (length : Z) :
  aligned (parse_splice_descriptor length) 0 0 88.
Proof.
  unfold parse_splice_descriptor.
  eapply aligned_bind with (k1 := 8) (k2 := 80); [aligned_step|intros x|lia].
  eapply aligned_bind with (k1 := 8) (k2 := 72); [aligned_step|intros dl|lia].
  eapply aligned_bind with (k1 := 32) (k2 := 40); [aligned_step|intros ident|lia].
  destruct (Z.eqb_spec x 0) as [->|N0]; [apply aligned_raise; constructor|].
  destruct (Z.eqb_spec x 1) as [->|N1]; [apply aligned_raise; constructor|].
  destruct (Z.eqb_spec x 2) as [->|N2];
    [apply aligned_parse_segmentation_descriptor|].
  destruct (Z.eqb_spec x 3) as [->|N3]; apply aligned_raise; constructor; assumption.
Qed.

#[local] Hint Resolve aligned_parse_splice_descriptor : aligned.

Lemma aligned_descriptors_loop (fuel : nat) :
  forall (length : Z) (results : list SCTE35_SegmentationDescriptor),
    aligned (descriptors_loop fuel length results) 0 0 0.
Proof.
  induction fuel as [|fuel IH]; intros length results; cbn [descriptors_loop];
    destruct (length >? 0)%Z; try apply aligned_ret.
  - intros l p _ _ _. exact I.
  - eapply aligned_bind; [apply aligned_parse_splice_descriptor| |apply Nat.le_0_l].
    intros r. apply IH.
Qed.

#[local] Hint Resolve aligned_descriptors_loop : aligned.

Lemma aligned_parse_splice_command (command_type : Z) :
  aligned (parse_splice_command command_type) 0 0 8.
Proof.
  unfold parse_splice_command.
  destruct (Z.eqb_spec command_type 5) as [->|N5].
  { eapply aligned_weaken; [apply aligned_fmap, aligned_parse_splice_insert|lia]. }
  destruct (Z.eqb_spec command_type 6) as [->|N6].
  { apply aligned_fmap, aligned_parse_time_signal. }
  apply aligned_raise. constructor; assumption.
Qed.

#[local] Hint Resolve aligned_parse_splice_command : aligned.

Lemma aligned_parse_descriptor_loop (h : SectionHeader) (command_type : Z)
    (command : option SpliceCommand) :
  aligned (parse_descriptor_loop h command_type command) 0 0 16.
Proof.
  unfold parse_descriptor_loop, parse_splice_descriptors. repeat aligned_step.
Qed.

#[local] Hint Resolve aligned_parse_descriptor_loop : aligned.

Lemma aligned_parse_after_header (h : SectionHeader) :
  aligned (parse_after_header h) 0 0 32.
Proof. unfold parse_after_header. repeat aligned_step. Qed.

Lemma aligned_parse_section :
  aligned (bind parse_section_header parse_after_header) 0 0 136.
Proof.
  eapply aligned_bind;
    [apply aligned_parse_section_header|apply aligned_parse_after_header|lia].
Qed.

Lemma aligned_at_bytes (input_bytes : list byte) :
  match parse input_bytes with
  | Return sis s' =>
      bits s' = bits_of_bytes input_bytes /\ pos s' mod 8 = 0 /\
      136 <= pos s' /\ pos s' <= 8 * List.length input_bytes
  | Raise e => escapes e
  | OutOfFuel => True
  end.
Proof.
  pose proof (aligned_parse_section (bits_of_bytes input_bytes) 0) as T.
  rewrite length_bits_of_bytes in T.
  assert (H8 : (8 * List.length input_bytes) mod 8 = 0).
  { rewrite Nat.mul_comm. apply Nat.Div0.mod_mul. }
  specialize (T H8 eq_refl (Nat.le_0_l _)).
  rewrite parse_unfold. unfold BitString_of_bytes.
  destruct (bind parse_section_header parse_after_header _) as [sis s'|e|];
    [|exact T|exact I].
  destruct T as (? & ? & ? & ?). repeat split; try assumption; lia.
Qed.

(** X3.  The exceptions a decode can end with are the six messages of
    [SCTE35_SpliceInfoSectionException], [ReadError], and the
    [AttributeError] of the first component assignment; in particular the
    [pos] setter never raises [ValueError] on a buffer of whole bytes. *)
Theorem parse_exceptions (input_bytes : list byte) (e : exn) :
  parse input_bytes = Raise e ->
  escapes e /\ e <> ValueError.
Proof.
  intros H. pose proof (aligned_at_bytes input_bytes) as T. rewrite H in T.
  split; [exact T|]. intros ->. inversion T.
Qed.

Lemma parse_exceptions_witness :
  escapes (SCTE35_SpliceInfoSectionException "unknown splice_descriptor tag (255)") /\
  SCTE35_SpliceInfoSectionException "unknown splice_descriptor tag (255)" <> ValueError.
Proof.
  apply (parse_exceptions (time_signal_marker x06 xff [])). reflexivity.
Defined.

(** X4.  A successful decode leaves the buffer untouched and the cursor on a
    byte boundary inside it, at least 17 bytes (136 bits) from the start: no
    buffer shorter than 17 bytes decodes. *)
Theorem parse_consumes_whole_bytes (input_bytes : list byte)
    (sis : SCTE35_SpliceInfoSection) (s' : BitString) :
  parse input_bytes = Return sis s' ->
  bits s' = bits_of_bytes input_bytes /\
  pos s' mod 8 = 0 /\
  136 <= pos s' /\
  pos s' <= 8 * List.length input_bytes /\
  17 <= List.length input_bytes.
Proof.
  intros H. pose proof (aligned_at_bytes input_bytes) as T. rewrite H in T.
  destruct T as (? & ? & ? & ?). repeat split; try assumption; lia.
Qed.

Lemma parse_consumes_whole_bytes_witness :
  exists sis s',
    parse example_marker = Return sis s' /\ pos s' mod 8 = 0 /\ 136 <= pos s'.
Proof.
  assert (H : exists sis s', parse example_marker = Return sis s')
    by (do 2 eexists; vm_compute; reflexivity).
  destruct H as (sis & s' & H). exists sis, s'.
  destruct (parse_consumes_whole_bytes _ _ _ H) as (_ & A & B & _).
  repeat split; assumption.
Defined.

(** ** Field values *)

Lemma fold_bits_shift (l : list bool) :
  forall acc : Z,
    fold_left (fun a (b : bool) => (2 * a + (if b then 1 else 0))%Z) l acc =
    (acc * 2 ^ Z.of_nat (List.length l) + bits_to_Z l)%Z.
Proof.
  unfold bits_to_Z.
  induction l as [|b l IH]; intros acc.
  - cbn. lia.
  - cbn [fold_left List.length]. rewrite IH. rewrite (IH (2 * 0 + _)%Z).
    rewrite Nat2Z.inj_succ, Z.pow_succ_r by lia. ring.
Qed.

(** Fields are big-endian: the bits read first weigh most. *)
Lemma bits_to_Z_app (l1 l2 : list bool) :
  bits_to_Z (l1 ++ l2) =
  (bits_to_Z l1 * 2 ^ Z.of_nat (List.length l2) + bits_to_Z l2)%Z.
Proof.
  unfold bits_to_Z at 1. rewrite fold_left_app. apply fold_bits_shift.
Qed.

Lemma bits_to_Z_bound (l : list bool) :
  (0 <= bits_to_Z l < 2 ^ Z.of_nat (List.length l))%Z.
Proof.
  induction l as [|b l IH] using rev_ind.
  - cbn. lia.
  - rewrite bits_to_Z_app, length_app. cbn [List.length].
    replace (Z.of_nat (List.length l + 1)) with (Z.succ (Z.of_nat (List.length l))) by lia.
    rewrite Z.pow_succ_r by lia.
    change (bits_to_Z [b]) with (if b then 1%Z else 0%Z).
    change (2 ^ Z.of_nat 1)%Z with 2%Z.
    destruct b; lia.
Qed.

Lemma uint_at_bound (l : list bool) (off n : nat) :
  (0 <= uint_at l off n < 2 ^ Z.of_nat n)%Z.
Proof.
  unfold uint_at. pose proof (bits_to_Z_bound (slice l off n)) as B.
  assert (L : List.length (slice l off n) <= n).
  { unfold slice. rewrite length_firstn. lia. }
  split; [lia|]. eapply Z.lt_le_trans; [apply B|].
  apply Z.pow_le_mono_r; lia.
Qed.

Lemma slice_split (l : list bool) (off n m : nat) :
  slice l off (n + m) = slice l off n ++ slice l (off + n) m.
Proof.
  unfold slice. rewrite Nat.add_comm with (n := off), <- skipn_skipn.
  generalize (skipn off l) as r. intros r. revert r.
  induction n as [|n IH]; intros r; [reflexivity|].
  destruct r as [|x r]; cbn [Nat.add firstn skipn app].
  - rewrite firstn_nil. reflexivity.
  - rewrite IH. reflexivity.
Qed.

Lemma uint_at_split (l : list bool) (off n m : nat) :
  off + n + m <= List.length l ->
  uint_at l off (n + m) =
  (uint_at l off n * 2 ^ Z.of_nat m + uint_at l (off + n) m)%Z.
Proof.
  intros H. unfold uint_at. rewrite slice_split, bits_to_Z_app.
  rewrite (length_slice l (off + n) m) by lia. reflexivity.
Qed.


Lemma skipn_bits_of_bytes (i : nat) :
  forall l : list byte, skipn (8 * i) (bits_of_bytes l) = bits_of_bytes (skipn i l).
Proof.
  induction i as [|i IH]; intros l; [reflexivity|].
  destruct l as [|b l].
  - rewrite skipn_nil. reflexivity.
  - replace (8 * S i) with (8 + 8 * i) by lia.
    unfold bits_of_bytes at 1. cbn [flat_map skipn].
    rewrite skipn_app, length_byte_bits.
    rewrite (skipn_all2 (byte_bits b)) by (rewrite length_byte_bits; lia).
    replace (8 + 8 * i - 8) with (8 * i) by lia.
    cbn [app]. apply IH.
Qed.

Lemma skipn_nth_cons (i : nat) :
  forall l : list byte, i < List.length l -> skipn i l = nth i l x00 :: skipn (S i) l.
Proof.
  induction i as [|i IH]; intros [|b l] H; cbn [List.length] in H; try lia.
  - reflexivity.
  - cbn [skipn nth]. rewrite IH by lia. reflexivity.
Qed.

(** A field that lies inside one byte of the buffer is read from that byte
    alone. *)
Lemma slice_in_byte (l : list byte) (i j w off : nat) :
  off = 8 * i + j -> i < List.length l -> j + w <= 8 ->
  slice (bits_of_bytes l) off w = firstn w (skipn j (byte_bits (nth i l x00))).
Proof.
  intros -> Hi Hw. unfold slice.
  rewrite Nat.add_comm, <- skipn_skipn, skipn_bits_of_bytes.
  rewrite skipn_nth_cons by assumption.
  unfold bits_of_bytes. cbn [flat_map].
  rewrite skipn_app, firstn_app, length_skipn, length_byte_bits.
  replace (w - (8 - j)) with 0 by lia. cbn [firstn]. apply app_nil_r.
Qed.

Lemma uint_at_byte (l : list byte) (i off : nat) :
  off = 8 * i -> i < List.length l ->
  uint_at (bits_of_bytes l) off 8 = byte_value (nth i l x00).
Proof.
  intros E Hi. unfold uint_at.
  rewrite (slice_in_byte l i 0 8) by lia.
  generalize (nth i l x00). intros b. destruct b; reflexivity.
Qed.

Lemma uint_at_low_nibble (l : list byte) (i off : nat) :
  off = 8 * i + 4 -> i < List.length l ->
  uint_at (bits_of_bytes l) off 4 = (byte_value (nth i l x00) mod 16)%Z.
Proof.
  intros E Hi. unfold uint_at.
  rewrite (slice_in_byte l i 4 4) by lia.
  generalize (nth i l x00). intros b. destruct b; reflexivity.
Qed.

Lemma uint_at_low_bit (l : list byte) (i off : nat) :
  off = 8 * i + 7 -> i < List.length l ->
  uint_at (bits_of_bytes l) off 1 = (byte_value (nth i l x00) mod 2)%Z.
Proof.
  intros E Hi. unfold uint_at.
  rewrite (slice_in_byte l i 7 1) by lia.
  generalize (nth i l x00). intros b. destruct b; reflexivity.
Qed.

Lemma length_bits_to_hex (n : nat) :
  forall l : list bool, List.length l = 4 * n -> String.length (bits_to_hex l) = n.
Proof.
  induction n as [|n IH]; intros l H.
  - destruct l; [reflexivity|discriminate H].
  - destruct l as [|b3 [|b2 [|b1 [|b0 l]]]]; cbn [List.length] in H; try lia.
    cbn [bits_to_hex String.length]. f_equal. apply IH. lia.
Qed.

Lemma length_hex_at (l : list bool) (off n : nat) :
  off + 4 * n <= List.length l -> String.length (hex_at l off (4 * n)) = n.
Proof.
  intros H. unfold hex_at. apply length_bits_to_hex, length_slice, H.
Qed.

Lemma parse_descriptor_loop_cases (h : SectionHeader) (command_type : Z)
    (command : option SpliceCommand) (s s' : BitString) (sis : SCTE35_SpliceInfoSection) :
  parse_descriptor_loop h command_type command s = Return sis s' ->
  pos s + 16 <= List.length (bits s) /\
  header sis = h /\ splice_command_type sis = command_type /\
  splice_command sis = command /\
  splice_descriptor_loop_length sis = uint_at (bits s) (pos s) 16 /\
  ((splice_descriptor_loop_length sis = 0%Z /\ splice_descriptors sis = None /\
    s' = seek s (pos s + 16)) \/
   ((0 < splice_descriptor_loop_length sis)%Z /\
    exists ds length',
      splice_descriptors sis = Some ds /\
      descriptors_loop (Z.to_nat (splice_descriptor_loop_length sis))
        (splice_descriptor_loop_length sis) [] (seek s (pos s + 16)) =
        Return (ds, length') s')).
Proof.
  unfold parse_descriptor_loop. intros H.
  inv_step H. apply bind_inv in H. destruct H as (ds & s1 & Hd & H).
  inv_ret H.
  cbn [header splice_command_type splice_command splice_descriptors
       splice_descriptor_loop_length].
  do 5 (split; [assumption || reflexivity|]).
  pose proof (uint_at_bound (bits s) (pos s) 16) as B.
  destruct (Z.gtb_spec (uint_at (bits s) (pos s) 16) 0) as [G|G].
  - right. split; [lia|].
    apply fmap_inv in Hd. destruct Hd as (l' & Hd & ->).
    unfold parse_splice_descriptors in Hd.
    apply fmap_inv in Hd. destruct Hd as ([ds len'] & Hd & ->).
    exists ds, len'. split; [reflexivity|exact Hd].
  - left. apply ret_inv in Hd. destruct Hd as [-> ->]. repeat split. lia.
Qed.

Lemma parse_cases (input_bytes : list byte) (sis : SCTE35_SpliceInfoSection)
    (s' : BitString) :
  parse input_bytes = Return sis s' ->
  let l := bits_of_bytes input_bytes in
  14 <= List.length input_bytes /\
  uint_at l 0 8 = 0xfc%Z /\
  header sis = header_at l 0 /\
  splice_command_type sis = uint_at l 104 8 /\
  exists s2,
    parse_splice_command (uint_at l 104 8) {| bits := l; pos := 112 |} =
      Return (splice_command sis) s2 /\
    parse_descriptor_loop (header_at l 0) (uint_at l 104 8) (splice_command sis) s2 =
      Return sis s'.
Proof.
  rewrite parse_unfold. intros H l.
  apply bind_inv in H. destruct H as (h & s1 & Hh & H).
  apply parse_section_header_inv in Hh. destruct Hh as (_ & T & -> & ->).
  cbn [BitString_of_bytes pos bits seek Nat.add] in *.
  unfold parse_after_header in H. inv_step H.
  apply bind_inv in H. destruct H as (command & s2 & Hc & H).
  pose proof (parse_descriptor_loop_cases _ _ _ _ _ _ H) as (_ & Eh & Et & Ec & _).
  pose proof (length_bits_of_bytes input_bytes) as Len.
  cbn [BitString_of_bytes pos bits seek] in *.
  split; [lia|]. split; [exact T|]. split; [exact Eh|]. split; [exact Et|].
  exists s2. rewrite Ec. split; assumption.
Qed.

(** X9.  Every integer field of the header of a decoded section lies in the
    range of its width: 12 bits for the two lengths, 8 for
    [protocol_version] and [cw_index], 6 for [encryption_algorithm], 33 for
    [pts_adjustment]; [tier] is three hexadecimal digits. *)
Theorem header_fields_in_range (input_bytes : list byte)
    (sis : SCTE35_SpliceInfoSection) (s' : BitString) :
  parse input_bytes = Return sis s' ->
  let h := header sis in
  (0 <= h_section_length h < 4096)%Z /\
  (0 <= h_protocol_version h < 256)%Z /\
  (0 <= h_encryption_algorithm h < 64)%Z /\
  (0 <= h_pts_adjustment h < 2 ^ 33)%Z /\
  (0 <= h_cw_index h < 256)%Z /\
  String.length (h_tier h) = 3 /\
  (0 <= h_splice_command_length h < 4096)%Z.
Proof.
  intros H h. apply parse_cases in H. cbv zeta in H.
  destruct H as (L & _ & Eh & _). subst h. rewrite Eh. unfold header_at.
  cbn [h_section_length h_protocol_version h_encryption_algorithm h_pts_adjustment
       h_cw_index h_tier h_splice_command_length].
  repeat split; try apply uint_at_bound.
  apply (length_hex_at _ _ 3). rewrite length_bits_of_bytes. cbn. lia.
Qed.

Lemma header_fields_in_range_witness :
  exists sis s',
    parse example_marker = Return sis s' /\
    (0 <= h_pts_adjustment (header sis) < 2 ^ 33)%Z /\
    String.length (h_tier (header sis)) = 3.
Proof.
  assert (H : exists sis s', parse example_marker = Return sis s')
    by (do 2 eexists; vm_compute; reflexivity).
  destruct H as (sis & s' & H). exists sis, s'.
  destruct (header_fields_in_range _ _ _ H) as (_ & _ & _ & A & _ & B & _).
  repeat split; try assumption; apply A.
Defined.

(** X10.  Where the header fields of a decoded section sit in the buffer:
    byte 0 is [0xFC]; [section_length] is the low nibble of byte 1 followed
    by byte 2; [protocol_version] is byte 3; [pts_adjustment] is the low bit
    of byte 4 followed by bytes 5 to 8; [cw_index] is byte 9;
    [splice_command_length] is the low nibble of byte 11 followed by byte 12;
    [splice_command_type] is byte 13.  Multi-byte fields are big-endian. *)
Theorem header_fields_from_bytes (input_bytes : list byte)
    (sis : SCTE35_SpliceInfoSection) (s' : BitString) :
  parse input_bytes = Return sis s' ->
  let B i := byte_value (nth i input_bytes x00) in
  let h := header sis in
  nth 0 input_bytes x00 = xfc /\
  h_section_length h = (B 1%nat mod 16 * 256 + B 2%nat)%Z /\
  h_protocol_version h = B 3%nat /\
  h_pts_adjustment h =
    (B 4%nat mod 2 * 2 ^ 32 + B 5%nat * 2 ^ 24 + B 6%nat * 2 ^ 16 + B 7%nat * 2 ^ 8 + B 8%nat)%Z /\
  h_cw_index h = B 9%nat /\
  h_splice_command_length h = (B 11%nat mod 16 * 256 + B 12%nat)%Z /\
  splice_command_type sis = B 13%nat.
Proof.
  intros H B h. apply parse_cases in H. cbv zeta in H.
  destruct H as (L & T & Eh & Et & _). subst h. rewrite Eh, Et. unfold header_at.
  cbn [h_section_length h_protocol_version h_pts_adjustment h_cw_index
       h_splice_command_length Nat.add].
  pose proof (length_bits_of_bytes input_bytes) as Len.
  subst B. cbv beta.
  rewrite (uint_at_byte input_bytes 0 0) in T by lia.
  split; [apply byte_value_fc, T|].
  split.
  { rewrite (uint_at_split _ 12 4 8) by lia.
    rewrite (uint_at_low_nibble input_bytes 1) by lia.
    rewrite (uint_at_byte input_bytes 2) by lia. reflexivity. }
  split; [apply uint_at_byte; lia|].
  split.
  { rewrite (uint_at_split _ 39 1 32) by lia.
    rewrite (uint_at_split _ (39 + 1) 8 24) by lia.
    rewrite (uint_at_split _ (39 + 1 + 8) 8 16) by lia.
    rewrite (uint_at_split _ (39 + 1 + 8 + 8) 8 8) by lia.
    rewrite (uint_at_low_bit input_bytes 4) by lia.
    rewrite (uint_at_byte input_bytes 5) by lia.
    rewrite (uint_at_byte input_bytes 6) by lia.
    rewrite (uint_at_byte input_bytes 7) by lia.
    rewrite (uint_at_byte input_bytes 8) by lia.
    change (Z.of_nat 32) with 32%Z. change (Z.of_nat 24) with 24%Z.
    change (Z.of_nat 16) with 16%Z. change (Z.of_nat 8) with 8%Z. lia. }
  split; [apply uint_at_byte; lia|].
  split.
  { rewrite (uint_at_split _ 92 4 8) by lia.
    rewrite (uint_at_low_nibble input_bytes 11) by lia.
    rewrite (uint_at_byte input_bytes 12) by lia. reflexivity. }
  apply uint_at_byte; lia.
Qed.

Lemma header_fields_from_bytes_witness :
  exists sis s',
    parse example_marker = Return sis s' /\
    h_section_length (header sis) = 37%Z /\
    h_splice_command_length (header sis) = 20%Z /\
    splice_command_type sis = 5%Z.
Proof.
  assert (H : exists sis s', parse example_marker = Return sis s')
    by (do 2 eexists; vm_compute; reflexivity).
  destruct H as (sis & s' & H). exists sis, s'.
  destruct (header_fields_from_bytes _ _ _ H) as (_ & A & _ & _ & _ & B & C).
  repeat split; assumption.
Defined.

(** ** Splice commands *)

Lemma parse_splice_time_inv (s s' : BitString) (st : Splice_Time) :
  parse_splice_time s = Return st s' ->
  pos s + 8 <= List.length (bits s) /\
  ((bool_at (bits s) (pos s) = true /\
    st = {| time_specified_flag := true;
            pts_time := Some (uint_at (bits s) (pos s + 7) 33) |} /\
    s' = seek s (pos s + 40)) \/
   (bool_at (bits s) (pos s) = false /\
    st = {| time_specified_flag := false; pts_time := None |} /\
    s' = seek s (pos s + 8))).
Proof.
  unfold parse_splice_time. intros H. inv_step H.
  destruct (bool_at (bits s) (pos s)) eqn:F.
  - do 2 inv_step H. inv_ret H. split; [lia|]. left.
    rewrite <- !Nat.add_assoc. repeat split.
  - inv_step H. inv_ret H. split; [lia|]. right.
    rewrite <- !Nat.add_assoc. repeat split.
Qed.

Lemma parse_break_duration_fields (s s' : BitString) (bd : BreakDuration) :
  parse_break_duration s = Return bd s' ->
  bd = {| auto_return := bool_at (bits s) (pos s);
          duration := uint_at (bits s) (pos s + 7) 33 |} /\
  s' = seek s (pos s + 40).
Proof.
  unfold parse_break_duration. intros H. do 3 inv_step H. inv_ret H.
  rewrite <- !Nat.add_assoc. split; reflexivity.
Qed.

(** The component loop of the splice insert appends exactly [count]
    components, at least one byte each. *)
Lemma parse_insert_components_inv (count : nat) :
  forall (sif : bool) (acc cs : list Component) (s s' : BitString),
    parse_insert_components count sif acc s = Return cs s' ->
    bits s' = bits s /\
    pos s + 8 * count <= pos s' /\
    (sif = false -> pos s' = pos s + 8 * count) /\
    exists new,
      cs = acc ++ new /\ List.length new = count /\
      Forall (fun c => (component_splice_time c <> None <-> sif = true) /\
                       (0 <= tag c < 256)%Z) new.
Proof.
  induction count as [|count IH]; intros sif acc cs s s' H;
    cbn [parse_insert_components] in H.
  - inv_ret H. repeat split; try lia.
    exists []. rewrite app_nil_r. repeat split. constructor.
  - inv_step H. apply bind_inv in H. destruct H as (st & s1 & Hst & H).
    apply IH in H. destruct H as (Hb & Hp & Hp' & new & -> & Hn & HF).
    assert (E : bits s1 = bits s /\ pos s + 8 <= pos s1 /\
                (sif = false -> pos s1 = pos s + 8) /\
                (st <> None <-> sif = true)).
    { destruct sif.
      - apply fmap_inv in Hst. destruct Hst as (t & Ht & ->).
        apply parse_splice_time_inv in Ht.
        destruct Ht as (_ & [(_ & _ & ->)|(_ & _ & ->)]); cbn [bits pos seek];
          repeat split; try lia; try discriminate; auto.
      - apply ret_inv in Hst. destruct Hst as [-> ->]. cbn [bits pos seek].
        repeat split; try lia; try discriminate; auto. }
    destruct E as (Eb & Ep & Ep' & Est).
    repeat split; try congruence; try lia.
    + intros F. rewrite (Hp' F), (Ep' F). lia.
    + exists ({| tag := uint_at (bits s) (pos s) 8; component_splice_time := st |} :: new).
      rewrite <- app_assoc. repeat split.
      * cbn [List.length]. lia.
      * constructor; [|assumption]. cbn [component_splice_time tag].
        split; [exact Est|apply (uint_at_bound _ _ 8)].
Qed.

Lemma parse_splice_insert_inv (s s' : BitString) (r : option SCTE35_SpliceInsert) :
  parse_splice_insert s = Return r s' ->
  bits s' = bits s /\
  ((bool_at (bits s) (pos s + 32) = true /\ r = None /\ pos s' = pos s + 40) \/
   (bool_at (bits s) (pos s + 32) = false /\
    exists ssi,
      r = Some ssi /\
      pos s + 80 <= pos s' /\
      splice_id ssi = uint_at (bits s) (pos s) 32 /\
      splice_event_cancel_indicator ssi = false /\
      (break_duration ssi <> None <-> duration_flag ssi = true) /\
      (component_count ssi = None <-> program_splice_flag ssi = true) /\
      (program_splice_flag ssi = true -> components ssi = []) /\
      (forall n, component_count ssi = Some n ->
                 List.length (components ssi) = Z.to_nat n /\ (0 <= n < 256)%Z) /\
      Forall (fun c => (component_splice_time c <> None <->
                        splice_immediate_flag ssi = true) /\
                       (0 <= tag c < 256)%Z) (components ssi) /\
      (forall bd, break_duration ssi = Some bd -> (0 <= duration bd < 2 ^ 33)%Z) /\
      (forall st t, splice_time ssi = Some st -> pts_time st = Some t ->
                    (0 <= t < 2 ^ 33)%Z))).
Proof.
  unfold parse_splice_insert. intros H.
  do 3 inv_step H.
  destruct (bool_at (bits s) (pos s + 32)) eqn:C; cbn [negb] in H.
  { inv_ret H. split; [reflexivity|]. left. cbn [pos seek]. repeat split. lia. }
  do 5 inv_step H.
  set (psf := bool_at (bits s) (pos s + 32 + 1 + 7 + 1)) in *.
  set (df := bool_at (bits s) (pos s + 32 + 1 + 7 + 1 + 1)) in *.
  set (sif := bool_at (bits s) (pos s + 32 + 1 + 7 + 1 + 1 + 1)) in *.
  set (s0 := seek s (pos s + 32 + 1 + 7 + 1 + 1 + 1 + 1 + 4)) in *.
  apply bind_inv in H. destruct H as (st & s1 & Hst & H).
  apply bind_inv in H. destruct H as (cc & s2 & Hcc & H).
  apply bind_inv in H. destruct H as (bd & s3 & Hbd & H).
  assert (E1 : bits s1 = bits s /\ pos s + 48 <= pos s1 /\
               (forall st' t, st = Some st' -> pts_time st' = Some t ->
                              (0 <= t < 2 ^ 33)%Z)).
  { destruct (psf && negb sif).
    - apply fmap_inv in Hst. destruct Hst as (t & Ht & ->).
      apply parse_splice_time_inv in Ht. subst s0. cbn [bits pos seek] in Ht.
      destruct Ht as (_ & [(_ & -> & ->)|(_ & -> & ->)]); cbn [bits pos seek];
        (split; [reflexivity|split; [lia|]]); intros st' t' E Et; injection E as <-;
        cbn [pts_time] in Et; try discriminate Et.
      injection Et as <-. apply (uint_at_bound _ _ 33).
    - apply ret_inv in Hst. destruct Hst as [-> ->]. subst s0. cbn [bits pos seek].
      split; [reflexivity|split; [lia|]]. discriminate. }
  destruct E1 as (Eb1 & Ep1 & Ept).
  assert (E2 : bits s2 = bits s /\ pos s1 <= pos s2 /\
               (fst cc = None <-> psf = true) /\
               (psf = true -> snd cc = []) /\
               (forall n, fst cc = Some n ->
                          List.length (snd cc) = Z.to_nat n /\ (0 <= n < 256)%Z) /\
               Forall (fun c => (component_splice_time c <> None <-> sif = true) /\
                                (0 <= tag c < 256)%Z) (snd cc)).
  { destruct psf; cbn [negb] in Hcc.
    - apply ret_inv in Hcc. destruct Hcc as [-> ->]. cbn [fst snd].
      split; [assumption|]. split; [lia|]. split; [tauto|]. split; [reflexivity|].
      split; [discriminate|constructor].
    - inv_step Hcc. apply bind_inv in Hcc. destruct Hcc as (cs & s4 & Hl & Hcc).
      apply ret_inv in Hcc. destruct Hcc as [-> ->]. cbn [fst snd].
      apply parse_insert_components_inv in Hl. cbn [bits pos seek] in Hl.
      destruct Hl as (Hb & Hp & _ & new & -> & Hn & HF). cbn [app].
      split; [congruence|]. split; [lia|].
      split; [split; discriminate|]. split; [discriminate|].
      split; [|assumption].
      intros n E. injection E as <-. split; [assumption|apply (uint_at_bound _ _ 8)]. }
  destruct E2 as (Eb2 & Ep2 & Ecnt & Ecs & Elen & EF).
  assert (E3 : bits s3 = bits s /\ pos s2 <= pos s3 /\
               (bd <> None <-> df = true) /\
               (forall b, bd = Some b -> (0 <= duration b < 2 ^ 33)%Z)).
  { destruct df.
    - apply fmap_inv in Hbd. destruct Hbd as (b & Hb & ->).
      apply parse_break_duration_fields in Hb. destruct Hb as (-> & ->).
      cbn [bits pos seek]. split; [assumption|]. split; [lia|].
      split; [split; [reflexivity|discriminate]|].
      intros b E. injection E as <-. apply (uint_at_bound _ _ 33).
    - apply ret_inv in Hbd. destruct Hbd as [-> ->].
      split; [assumption|]. split; [lia|].
      split; [split; [congruence|discriminate]|discriminate]. }
  destruct E3 as (Eb3 & Ep3 & Ebd & Edur).
  do 3 inv_step H. inv_ret H. cbn [bits pos seek].
  split; [assumption|]. right. split; [reflexivity|].
  eexists. split; [reflexivity|].
  cbn [splice_id splice_event_cancel_indicator break_duration duration_flag
       component_count program_splice_flag components splice_immediate_flag splice_time].
  split; [lia|]. split; [reflexivity|]. split; [reflexivity|].
  split; [exact Ebd|]. split; [exact Ecnt|]. split; [exact Ecs|].
  split; [exact Elen|]. split; [exact EF|]. split; [exact Edur|exact Ept].
Qed.

(** X5.  In a decoded section the command agrees with the command type:
    type 5 comes with a splice insert carrying the event id of bits
    112..143, or with no command at all when the cancel bit (bit 144) is
    set; type 6 comes with a time signal whose flag is bit 112.  No other
    type decodes. *)
Theorem decoded_command_matches_type (input_bytes : list byte)
    (sis : SCTE35_SpliceInfoSection) (s' : BitString) :
  parse input_bytes = Return sis s' ->
  let l := bits_of_bytes input_bytes in
  (splice_command_type sis = 5%Z /\
   ((bool_at l 144 = true /\ splice_command sis = None) \/
    (bool_at l 144 = false /\
     exists ssi,
       splice_command sis = Some (SpliceInsert ssi) /\
       splice_id ssi = uint_at l 112 32 /\
       splice_event_cancel_indicator ssi = false))) \/
  (splice_command_type sis = 6%Z /\
   exists sts,
     splice_command sis = Some (TimeSignal sts) /\
     time_specified_flag (time_signal_splice_time sts) = bool_at l 112).
Proof.
  intros H l. apply parse_cases in H. cbv zeta in H. fold l in H.
  destruct H as (_ & _ & _ & Et & s2 & Hc & _).
  rewrite Et. unfold parse_splice_command in Hc.
  destruct (Z.eqb_spec (uint_at l 104 8) 5) as [E5|N5].
  - left. split; [assumption|].
    apply fmap_inv in Hc. destruct Hc as (r & Hr & ->).
    apply parse_splice_insert_inv in Hr. cbn [bits pos Nat.add] in Hr.
    destruct Hr as (_ & [(C & -> & _)|(C & ssi & -> & _ & Hid & Hcancel & _)]).
    + left. split; [exact C|reflexivity].
    + right. split; [exact C|]. exists ssi. repeat split; assumption.
  - destruct (Z.eqb_spec (uint_at l 104 8) 6) as [E6|N6]; [|discriminate Hc].
    right. split; [assumption|].
    apply fmap_inv in Hc. destruct Hc as (sts & Hs & ->).
    exists sts. split; [reflexivity|].
    unfold parse_time_signal in Hs. apply bind_inv in Hs.
    destruct Hs as (st & s3 & Hst & Hs). inv_ret Hs.
    apply parse_splice_time_inv in Hst. cbn [bits pos time_signal_splice_time] in *.
    destruct Hst as (_ & [(F & -> & _)|(F & -> & _)]); rewrite F; reflexivity.
Qed.

Lemma decoded_command_matches_type_witness :
  exists sis s' ssi,
    parse example_marker = Return sis s' /\
    splice_command sis = Some (SpliceInsert ssi) /\
    splice_id ssi = 1%Z.
Proof.
  assert (H : exists sis s', parse example_marker = Return sis s' /\
                             splice_command_type sis = 5%Z)
    by (do 2 eexists; split; vm_compute; reflexivity).
  destruct H as (sis & s' & H & T). exists sis, s'.
  destruct (decoded_command_matches_type _ _ _ H)
    as [(_ & [(C & _)|(_ & ssi & A & B & _)])|(T6 & _)].
  - discriminate C.
  - exists ssi. repeat split; assumption.
  - rewrite T in T6. discriminate T6.
Defined.

(** X7.  The optional parts of a decoded splice insert follow its flags:
    [break_duration] is there exactly when [duration_flag] is set;
    [component_count] is there exactly when [program_splice_flag] is clear,
    and then [components] has that many entries, otherwise none; a component
    has a splice time exactly when [splice_immediate_flag] is set; and every
    tick count (break duration, [pts_time]) is a 33-bit value. *)
Theorem splice_insert_optional_parts (s s' : BitString) (ssi : SCTE35_SpliceInsert) :
  parse_splice_insert s = Return (Some ssi) s' ->
  (break_duration ssi <> None <-> duration_flag ssi = true) /\
  (component_count ssi = None <-> program_splice_flag ssi = true) /\
  (program_splice_flag ssi = true -> components ssi = []) /\
  (forall n, component_count ssi = Some n ->
             List.length (components ssi) = Z.to_nat n /\ (0 <= n < 256)%Z) /\
  Forall (fun c => (component_splice_time c <> None <->
                    splice_immediate_flag ssi = true) /\
                   (0 <= tag c < 256)%Z) (components ssi) /\
  (forall bd, break_duration ssi = Some bd -> (0 <= duration bd < 2 ^ 33)%Z) /\
  (forall st t, splice_time ssi = Some st -> pts_time st = Some t ->
                (0 <= t < 2 ^ 33)%Z) /\
  bits s' = bits s /\
  pos s + 80 <= pos s'.
Proof.
  intros H. apply parse_splice_insert_inv in H.
  destruct H as (Hb & [(_ & E & _)|(_ & ssi' & E & Hp & _ & _ & A & B & C & D & F & G & I)]);
    [discriminate E|].
  injection E as <-. repeat split; try assumption; try apply A; try apply B.
  - apply D. assumption.
  - apply D in H. lia.
  - apply D in H. lia.
  - apply G in H. lia.
  - apply G in H. lia.
  - eapply I; eassumption.
  - eapply I; eassumption.
Qed.

Lemma splice_insert_optional_parts_witness :
  exists ssi s',
    parse_splice_insert {| bits := bits_of_bytes example_marker; pos := 112 |} =
      Return (Some ssi) s' /\
    break_duration ssi <> None /\ components ssi = [].
Proof.
  assert (H : exists ssi s',
             parse_splice_insert {| bits := bits_of_bytes example_marker; pos := 112 |} =
               Return (Some ssi) s' /\
             duration_flag ssi = true /\ program_splice_flag ssi = true)
    by (do 2 eexists; split; [vm_compute; reflexivity|split; reflexivity]).
  destruct H as (ssi & s' & H & D & P). exists ssi, s'. split; [exact H|].
  destruct (splice_insert_optional_parts _ _ _ H) as (A & _ & C & _).
  split; [apply A, D|apply C, P].
Defined.

(** X12.  The break duration parser on any cursor: with 40 bits left it
    returns [auto_return] (the first bit) and the 33-bit [duration] that
    follows six skipped bits, and advances by 40; with no bit left the read
    of [auto_return] raises [ReadError]; with fewer than seven bits left the
    skip raises [ValueError]; otherwise the read of [duration] raises
    [ReadError]. *)
Theorem break_duration_outcome (s : BitString) :
  parse_break_duration s =
    if pos s + 40 <=? List.length (bits s) then
      Return {| auto_return := bool_at (bits s) (pos s);
                duration := uint_at (bits s) (pos s + 7) 33 |}
             (seek s (pos s + 40))
    else if pos s + 1 <=? List.length (bits s) then
      if pos s + 7 <=? List.length (bits s) then Raise ReadError else Raise ValueError
    else Raise ReadError.
Proof.
  unfold parse_break_duration.
  destruct (Nat.leb_spec (pos s + 40) (List.length (bits s))) as [L40|L40].
  { do 3 run_step. unfold ret. rewrite <- !Nat.add_assoc. reflexivity. }
  destruct (Nat.leb_spec (pos s + 1) (List.length (bits s))) as [L1|L1].
  - run_step.
    destruct (Nat.leb_spec (pos s + 7) (List.length (bits s))) as [L7|L7].
    + run_step. apply bind_Raise, read_uint_short. cbn [pos bits seek]. lia.
    + apply bind_Raise, advance_short. cbn [pos bits seek]. lia.
  - apply bind_Raise, read_bool_short. lia.
Qed.


(** X11.  The decode of a time signal without descriptors, in full: a
    buffer that starts with [0xFC], has command type 6 in byte 13 and a zero
    descriptor loop length after the splice time decodes to the section with
    that header, a time signal whose [pts_time] is the 33 bits from bit 119
    when the flag (bit 112) is set and absent otherwise, and no descriptors;
    the decode stops after the loop length, at byte 21 or 17. *)
Theorem time_signal_decode (input_bytes : list byte) :
  nth 0 input_bytes x00 = xfc ->
  nth 13 input_bytes x00 = x06 ->
  let l := bits_of_bytes input_bytes in
  let flag := bool_at l 112 in
  let n := if flag then 19 else 15 in
  n + 2 <= List.length input_bytes ->
  uint_at l (8 * n) 16 = 0%Z ->
  parse input_bytes =
    Return {| header := header_at l 0;
              splice_command_type := 6;
              splice_command :=
                Some (TimeSignal
                        {| time_signal_splice_time :=
                             {| time_specified_flag := flag;
                                pts_time := if flag then Some (uint_at l 119 33)
                                            else None |} |});
              splice_descriptor_loop_length := 0;
              splice_descriptors := None |}
           {| bits := l; pos := 8 * n + 16 |}.
Proof.
  intros T0 T13 l flag n. subst n flag. cbv beta.
  pose proof (length_bits_of_bytes input_bytes) as Len. fold l in Len.
  assert (P : forall k, 8 * 15 <= k -> k + 16 <= List.length l ->
              forall st, parse_splice_time {| bits := l; pos := 112 |} =
                           Return st {| bits := l; pos := k |} ->
              uint_at l k 16 = 0%Z ->
              parse input_bytes =
                Return {| header := header_at l 0;
                          splice_command_type := 6;
                          splice_command :=
                            Some (TimeSignal {| time_signal_splice_time := st |});
                          splice_descriptor_loop_length := 0;
                          splice_descriptors := None |}
                       {| bits := l; pos := k + 16 |}).
  { intros k Hk Hk' st Hst HL.
    assert (E0 : uint_at l 0 8 = 0xfc%Z).
    { subst l. rewrite (uint_at_byte input_bytes 0) by lia. rewrite T0. reflexivity. }
    assert (E13 : uint_at l 104 8 = 6%Z).
    { subst l. rewrite (uint_at_byte input_bytes 13) by lia. rewrite T13. reflexivity. }
    rewrite parse_unfold.
    erewrite bind_Return; cycle 1.
    { apply parse_section_header_ok; cbn [BitString_of_bytes pos bits];
        [subst l; lia|exact E0]. }
    unfold seek, BitString_of_bytes. cbn [pos bits Nat.add]. fold l.
    unfold parse_after_header.
    rewrite bind_read_uint by (cbn [pos bits]; subst l; lia).
    unfold seek. cbn [pos bits Nat.add]. rewrite E13.
    unfold parse_splice_command. cbn [Z.eqb Pos.eqb].
    rewrite bind_fmap. unfold parse_time_signal. rewrite bind_assoc.
    rewrite (bind_Return _ _ _ _ _ Hst). rewrite bind_ret.
    unfold parse_descriptor_loop.
    rewrite bind_read_uint by (cbn [pos bits]; subst l; lia).
    unfold seek. cbn [pos bits]. rewrite HL.
    cbn [Z.gtb Z.compare]. rewrite bind_ret. reflexivity. }
  destruct (bool_at l 112) eqn:F; intros Hn HL.
  - apply (P (8 * 19)); [lia|lia| |exact HL].
    rewrite parse_splice_time_set by (cbn [pos bits]; (lia || exact F)).
    reflexivity.
  - apply (P (8 * 15)); [lia|lia| |exact HL].
    rewrite parse_splice_time_clear by (cbn [pos bits]; (lia || exact F)).
    reflexivity.
Qed.

Lemma time_signal_decode_witness :
  exists sis,
    parse [xfc; x30; x11; x00; x00; x00; x00; x00; x00; x00; xff; xf0; x05; x06;
           xfe; x00; x00; x30; x39; x00; x00] =
      Return sis {| bits := bits_of_bytes
                              [xfc; x30; x11; x00; x00; x00; x00; x00; x00; x00; xff;
                               xf0; x05; x06; xfe; x00; x00; x30; x39; x00; x00];
                    pos := 168 |} /\
    splice_command sis =
      Some (TimeSignal {| time_signal_splice_time :=
                            {| time_specified_flag := true;
                               pts_time := Some 12345%Z |} |}).
Proof.
  eexists. split.
  - apply (time_signal_decode
             [xfc; x30; x11; x00; x00; x00; x00; x00; x00; x00; xff; xf0; x05; x06;
              xfe; x00; x00; x30; x39; x00; x00]);
      [reflexivity | reflexivity | cbn; lia | reflexivity].
  - reflexivity.
Defined.

(** ** The descriptor list *)

(** Every descriptor the loop appends has used up at least 11 bytes of the
    counter, and the last one was started with the counter still positive. *)
Lemma descriptors_loop_count (fuel : nat) :
  forall (length : Z) (results ds : list SCTE35_SegmentationDescriptor)
         (length' : Z) (s s' : BitString),
    descriptors_loop fuel length results s = Return (ds, length') s' ->
    exists new,
      ds = results ++ new /\
      ((length <= 0)%Z -> new = []) /\
      ((0 < length)%Z ->
       1 <= List.length new /\ (11 * Z.of_nat (List.length new) < length + 11)%Z).
Proof.
  induction fuel as [|fuel IH]; intros length results ds length' s s' H;
    cbn [descriptors_loop] in H;
    destruct (Z.gtb_spec length 0) as [G|G]; try discriminate H.
  - inv_ret H. match goal with E : (_, _) = (_, _) |- _ => injection E as -> -> end.
    exists []. rewrite app_nil_r. repeat split; lia.
  - apply bind_inv in H. destruct H as ([d len1] & s1 & H1 & H).
    apply parse_splice_descriptor_inv in H1.
    destruct H1 as (_ & _ & _ & _ & Hl & _).
    cbn [fst snd] in H. apply IH in H. destruct H as (new & -> & H0 & H1).
    exists (d :: new). rewrite <- app_assoc. split; [reflexivity|].
    split; [lia|]. intros _. cbn [List.length].
    destruct (Z.le_gt_cases len1 0) as [L|L].
    + rewrite (H0 L). cbn [List.length]. lia.
    + destruct (H1 ltac:(lia)) as [A B]. lia.
  - inv_ret H. match goal with E : (_, _) = (_, _) |- _ => injection E as -> -> end.
    exists []. rewrite app_nil_r. repeat split; lia.
Qed.

(** X6.  [splice_descriptors] is [None] exactly when the 16-bit
    [splice_descriptor_loop_length] is 0.  Otherwise it is a non-empty list,
    and as each descriptor uses up at least 11 bytes of the declared length
    [L], it has fewer than [(L + 11) / 11] entries. *)
Theorem descriptor_list_size (input_bytes : list byte)
    (sis : SCTE35_SpliceInfoSection) (s' : BitString) :
  parse input_bytes = Return sis s' ->
  let L := splice_descriptor_loop_length sis in
  (0 <= L < 65536)%Z /\
  (splice_descriptors sis = None <-> L = 0%Z) /\
  (forall ds, splice_descriptors sis = Some ds ->
     1 <= List.length ds /\ (11 * Z.of_nat (List.length ds) < L + 11)%Z).
Proof.
  intros H L. apply parse_cases in H. cbv zeta in H.
  destruct H as (_ & _ & _ & _ & s2 & _ & H).
  apply parse_descriptor_loop_cases in H.
  destruct H as (_ & _ & _ & _ & EL & C). fold L in EL, C.
  split; [rewrite EL; apply (uint_at_bound _ _ 16)|].
  destruct C as [(E0 & En & _)|(G & ds & len' & Es & Hl)].
  - split; [tauto|]. intros ds E. congruence.
  - split; [split; [congruence|lia]|].
    intros ds' E. rewrite Es in E. injection E as <-.
    apply descriptors_loop_count in Hl. destruct Hl as (new & -> & _ & Hn).
    cbn [app]. apply Hn, G.
Qed.

Lemma descriptor_list_size_witness :
  exists sis s' ds,
    parse no_component_marker = Return sis s' /\
    splice_descriptors sis = Some ds /\
    1 <= List.length ds /\ (11 * Z.of_nat (List.length ds) < 18 + 11)%Z.
Proof.
  assert (H : exists sis s' ds, parse no_component_marker = Return sis s' /\
                                splice_descriptors sis = Some ds /\
                                splice_descriptor_loop_length sis = 18%Z)
    by (do 3 eexists; split; [vm_compute; reflexivity|split; reflexivity]).
  destruct H as (sis & s' & ds & H & Hd & HL). exists sis, s', ds.
  destruct (descriptor_list_size _ _ _ H) as (_ & _ & A).
  rewrite HL in A. repeat split; try assumption; apply A; assumption.
Defined.

Lemma length_bits_to_bin (l : list bool) : String.length (bits_to_bin l) = List.length l.
Proof. induction l as [|b l IH]; cbn; [reflexivity|f_equal; exact IH]. Qed.

Lemma parse_segmentation_descriptor_shape (t dl : Z) (ident : string) (length : Z)
    (s s' : BitString) (d : SCTE35_SegmentationDescriptor) (length' : Z) :
  parse_segmentation_descriptor t dl ident length s = Return (d, length') s' ->
  splice_descriptor_tag d = t /\ descriptor_length d = dl /\ identifier d = ident /\
  segmentation_event_id d = uint_at (bits s) (pos s) 32 /\
  descriptor_body_shape d.
Proof.
  unfold parse_segmentation_descriptor, descriptor_body_shape. intros H.
  do 3 inv_step H.
  destruct (bool_at (bits s) (pos s + 32)) eqn:C; cbn [negb] in H.
  { inv_ret H. match goal with E : (_, _) = (_, _) |- _ => injection E as -> -> end.
    cbn. repeat split. }
  do 3 inv_step H.
  set (psf := bool_at (bits s) (pos s + 32 + 1 + 7)) in *.
  set (sdf := bool_at (bits s) (pos s + 32 + 1 + 7 + 1)) in *.
  set (dnr := bool_at (bits s) (pos s + 32 + 1 + 7 + 1 + 1)) in *.
  apply bind_inv in H. destruct H as (restr & s1 & Hr & H).
  destruct restr as [[[web regional] archive] device].
  assert (Er : if dnr then web = None /\ regional = None /\ archive = None /\ device = None
               else web <> None /\ regional <> None /\ archive <> None /\
                    exists dv, device = Some dv /\ String.length dv = 2).
  { destruct dnr; cbn [negb] in Hr.
    - inv_step Hr. inv_ret Hr.
      match goal with E : (_, _) = (_, _) |- _ => injection E as -> -> -> -> end.
      repeat split.
    - do 4 inv_step Hr. inv_ret Hr.
      match goal with E : (_, _) = (_, _) |- _ => injection E as -> -> -> -> end.
      repeat split; try discriminate.
      eexists. split; [reflexivity|].
      unfold bin_at. rewrite length_bits_to_bin. apply length_slice. lia. }
  clear Hr.
  apply bind_inv in H. destruct H as (comps & s2 & _ & H).
  destruct comps as [[count comp_list] len2].
  apply bind_inv in H. destruct H as (dur & s3 & Hd & H).
  destruct dur as [seg_duration len3].
  assert (Ed : (seg_duration <> None <-> sdf = true) /\
               (forall t', seg_duration = Some t' -> (0 <= t' < 2 ^ 40)%Z)).
  { destruct sdf.
    - inv_step Hd. inv_ret Hd.
      match goal with E : (_, _) = (_, _) |- _ => injection E as -> -> end.
      split; [split; [reflexivity|discriminate]|].
      intros t' E. injection E as <-. apply (uint_at_bound _ _ 40).
    - inv_ret Hd. match goal with E : (_, _) = (_, _) |- _ => injection E as -> -> end.
      split; [split; [congruence|discriminate]|discriminate]. }
  clear Hd. destruct Ed as (Ed1 & Ed2).
  do 6 inv_step H.
  set (ul := uint_at (bits s3) (pos s3 + 8) 8) in *.
  set (tid := uint_at (bits s3) (pos s3 + 8 + 8 + Z.to_nat (ul * 8)) 8) in *.
  pose proof (uint_at_bound (bits s3) (pos s3 + 8) 8) as Hul. fold ul in Hul.
  change (2 ^ Z.of_nat 8)%Z with 256%Z in Hul.
  apply bind_inv in H. destruct H as (sub & s4 & Hs & H).
  destruct sub as [[sub_num sub_expected] len4].
  assert (Es : (sub_num <> None <-> tid = 0x34%Z \/ tid = 0x36%Z) /\
               (sub_expected <> None <-> tid = 0x34%Z \/ tid = 0x36%Z)).
  { destruct (Z.eqb_spec tid 0x34) as [E1|E1];
      [|destruct (Z.eqb_spec tid 0x36) as [E2|E2]]; cbn [orb] in Hs.
    - do 2 inv_step Hs. inv_ret Hs.
      match goal with E : (_, _) = (_, _) |- _ => injection E as -> -> -> end.
      split; (split; [auto|discriminate]).
    - do 2 inv_step Hs. inv_ret Hs.
      match goal with E : (_, _) = (_, _) |- _ => injection E as -> -> -> end.
      split; (split; [auto|discriminate]).
    - inv_ret Hs.
      match goal with E : (_, _) = (_, _) |- _ => injection E as -> -> -> end.
      split; (split; [congruence|intros [?|?]; contradiction]). }
  clear Hs. destruct Es as (Es1 & Es2).
  inv_ret H. match goal with E : (_, _) = (_, _) |- _ => injection E as -> -> end.
  cbn [splice_descriptor_tag descriptor_length identifier segmentation_event_id
       segmentation_event_cancel_indicator].
  do 4 (split; [reflexivity|]).
  exists psf, sdf, dnr, (hex_at (bits s3) (pos s3) 8),
    (hex_at (bits s3) (pos s3 + 8 + 8) (Z.to_nat (ul * 8))), ul, tid.
  cbn [program_segmentation_flag segmentation_duration_flag
       delivery_not_restricted_flag web_delivery_allowed_flag
       no_regional_blackout_flag archive_allowed_flag device_restrictions
       segmentation_duration segmentation_upid_type segmentation_upid_length
       segmentation_upid segmentation_type_id segment_num segments_expected
       sub_segment_num sub_segments_expected].
  do 3 (split; [reflexivity|]).
  split; [exact Er|]. split; [exact Ed1|]. split; [exact Ed2|].
  split; [reflexivity|].
  split; [apply (length_hex_at _ _ 2); lia|].
  split; [reflexivity|]. split; [exact Hul|]. split; [reflexivity|].
  split.
  { replace (Z.to_nat (ul * 8)) with (4 * (2 * Z.to_nat ul)) in * by lia.
    apply length_hex_at. lia. }
  split; [reflexivity|]. split; [discriminate|]. split; [discriminate|].
  split; assumption.
Qed.

Lemma parse_splice_descriptor_shape (length : Z) (s s' : BitString)
    (d : SCTE35_SegmentationDescriptor) (length' : Z) :
  parse_splice_descriptor length s = Return (d, length') s' ->
  descriptor_shape d.
Proof.
  unfold parse_splice_descriptor. intros H.
  do 3 inv_step H.
  set (t := uint_at (bits s) (pos s) 8) in *.
  destruct (Z.eqb_spec t 0); [discriminate H|].
  destruct (Z.eqb_spec t 1); [discriminate H|].
  destruct (Z.eqb_spec t 2) as [E2|]; cycle 1.
  { destruct (Z.eqb_spec t 3); discriminate H. }
  apply parse_segmentation_descriptor_shape in H.
  destruct H as (Ht & Hdl & Hid & He & Hb).
  unfold descriptor_shape. rewrite Ht, Hdl, Hid, He.
  split; [assumption|]. split; [apply (uint_at_bound _ _ 8)|].
  split; [apply (length_hex_at _ _ 8); lia|].
  split; [apply (uint_at_bound _ _ 32)|assumption].
Qed.

Lemma descriptors_loop_shape (fuel : nat) :
  forall (length : Z) (results ds : list SCTE35_SegmentationDescriptor)
         (length' : Z) (s s' : BitString),
    descriptors_loop fuel length results s = Return (ds, length') s' ->
    Forall descriptor_shape results -> Forall descriptor_shape ds.
Proof.
  induction fuel as [|fuel IH]; intros length results ds length' s s' H F;
    cbn [descriptors_loop] in H;
    destruct (length >? 0)%Z; try discriminate H.
  - inv_ret H. match goal with E : (_, _) = (_, _) |- _ => injection E as -> -> end.
    assumption.
  - apply bind_inv in H. destruct H as ([d len1] & s1 & H1 & H).
    apply parse_splice_descriptor_shape in H1.
    cbn [fst snd] in H. eapply IH; [exact H|].
    apply Forall_app. split; [assumption|]. constructor; [assumption|constructor].
  - inv_ret H. match goal with E : (_, _) = (_, _) |- _ => injection E as -> -> end.
    assumption.
Qed.

(** X8.  Every descriptor of a decoded section is a segmentation descriptor
    (tag 2) with an 8-digit identifier, and the attributes it carries are
    the ones its flags call for: none of the optional ones when it is
    cancelled; otherwise the delivery restrictions exactly when
    [delivery_not_restricted_flag] is clear, [segmentation_duration] exactly
    when its flag is set, a UPID of [2 * segmentation_upid_length]
    hexadecimal digits, and the sub-segment pair exactly when
    [segmentation_type_id] is [0x34] or [0x36]. *)
Theorem decoded_descriptors_shape (input_bytes : list byte)
    (sis : SCTE35_SpliceInfoSection) (s' : BitString)
    (ds : list SCTE35_SegmentationDescriptor) :
  parse input_bytes = Return sis s' ->
  splice_descriptors sis = Some ds ->
  Forall descriptor_shape ds.
Proof.
  intros H Hd. apply parse_cases in H. cbv zeta in H.
  destruct H as (_ & _ & _ & _ & s2 & _ & H).
  apply parse_descriptor_loop_cases in H.
  destruct H as (_ & _ & _ & _ & _ & [(_ & En & _)|(_ & ds' & len' & Es & Hl)]).
  - congruence.
  - rewrite Es in Hd. injection Hd as <-.
    eapply descriptors_loop_shape; [exact Hl|constructor].
Qed.

Lemma decoded_descriptors_shape_witness :
  exists sis s' d,
    parse segmentation_marker = Return sis s' /\
    splice_descriptors sis = Some [d] /\
    segmentation_upid d = Some "41424344"%string /\
    Forall descriptor_shape [d].
Proof.
  assert (H : exists sis s' d, parse segmentation_marker = Return sis s' /\
                               splice_descriptors sis = Some [d] /\
                               segmentation_upid d = Some "41424344"%string)
    by (do 3 eexists; split; [vm_compute; reflexivity|split; reflexivity]).
  destruct H as (sis & s' & d & H & Hd & Hu). exists sis, s', d.
  repeat split; try assumption.
  apply (decoded_descriptors_shape _ _ _ _ H Hd).
Defined.

(** ** Components of a splice insert *)

Lemma components_at_S (l : list bool) (p count : nat) :
  components_at l p (S count) =
  {| tag := uint_at l p 8; component_splice_time := None |}
    :: components_at l (p + 8) count.
Proof.
  unfold components_at. cbn [seq map]. rewrite Nat.mul_0_r, Nat.add_0_r.
  f_equal. rewrite <- seq_shift, map_map. apply map_ext.
  intros i. do 2 f_equal. lia.
Qed.

(** X13.  The component loop of a splice insert that is not immediate, in
    full, from a cursor inside the buffer: if the buffer holds [count] more
    bytes, the loop appends one component per byte, tagged with that byte
    and without a splice time, and advances by [8 * count] bits; if it does
    not, the loop raises [ReadError]. *)
Theorem insert_components_not_immediate (count : nat) (acc : list Component)
    (s : BitString) :
  pos s <= List.length (bits s) ->
  parse_insert_components count false acc s =
    if pos s + 8 * count <=? List.length (bits s)
    then Return (acc ++ components_at (bits s) (pos s) count)
                (seek s (pos s + 8 * count))
    else Raise ReadError.
Proof.
  revert acc s.
  induction count as [|count IH]; intros acc s Hs; cbn [parse_insert_components].
  - rewrite Nat.mul_0_r, Nat.add_0_r.
    apply Nat.leb_le in Hs. rewrite Hs.
    unfold ret, components_at. cbn [seq map]. rewrite app_nil_r.
    destruct s; reflexivity.
  - destruct (Nat.leb_spec (pos s + 8) (List.length (bits s))) as [L|L].
    + rewrite bind_read_uint by assumption. rewrite bind_ret.
      rewrite IH by (cbn [pos bits seek]; lia).
      cbn [pos bits seek].
      replace (pos s + 8 + 8 * count) with (pos s + 8 * S count) by lia.
      destruct (pos s + 8 * S count <=? List.length (bits s)); [|reflexivity].
      rewrite components_at_S, <- app_assoc. reflexivity.
    + rewrite (bind_Raise _ _ _ _ (read_uint_short _ _ L)).
      destruct (Nat.leb_spec (pos s + 8 * S count) (List.length (bits s)));
        [lia|reflexivity].
Qed.

Lemma insert_components_not_immediate_witness :
  parse_insert_components 2 false []
    {| bits := bits_of_bytes [x05; x0a; xff]; pos := 0 |} =
    Return [{| tag := 5; component_splice_time := None |};
            {| tag := 10; component_splice_time := None |}]
           {| bits := bits_of_bytes [x05; x0a; xff]; pos := 16 |}.
Proof.
  rewrite insert_components_not_immediate by (cbn; lia). reflexivity.
Defined.

(** ** Short buffers *)

(** X14.  A buffer that is too short stays too short when it is cut
    further: if the decode of a buffer raises [ReadError], so does the
    decode of each of its prefixes. *)
Theorem ReadError_on_every_prefix (input_bytes extra : list byte) :
  parse (input_bytes ++ extra) = Raise ReadError ->
  parse input_bytes = Raise ReadError.
Proof.
  intros H. pose proof (truncates_at_bytes input_bytes extra) as T.
  rewrite H in T. destruct T as [T|T]; exact T.
Qed.

Lemma ReadError_on_every_prefix_witness :
  parse (firstn 10 example_marker) = Raise ReadError.
Proof.
  apply (ReadError_on_every_prefix (firstn 10 example_marker)
           (firstn 10 (skipn 10 example_marker))).
  reflexivity.
Defined.

(** X15.  What the header part of [parse] does with a buffer, by its bytes:
    the empty buffer raises [ReadError]; a first byte other than [0xFC]
    raises the table-id exception with that byte in its message; a buffer
    that starts with [0xFC] yields the header and leaves the cursor at bit
    104 when it has 13 bytes, and raises [ReadError] when it has fewer. *)
Theorem section_header_outcome (input_bytes : list byte) :
  parse_section_header (BitString_of_bytes input_bytes) =
    match input_bytes with
    | [] => Raise ReadError
    | b :: _ =>
        if (byte_value b =? 0xfc)%Z then
          if 13 <=? List.length input_bytes
          then Return (header_at (bits_of_bytes input_bytes) 0)
                      {| bits := bits_of_bytes input_bytes; pos := 104 |}
          else Raise ReadError
        else
          Raise (SCTE35_SpliceInfoSectionException
                   (dec (byte_value b) ++ " valid. Should be 0xfc"))
    end.
Proof.
  destruct input_bytes as [|b rest]; [reflexivity|].
  pose proof (length_bits_of_bytes (b :: rest)) as Len.
  pose proof (uint_at_first_byte b rest) as E. fold (byte_value b) in E.
  destruct (Z.eqb_spec (byte_value b) 0xfc) as [T|T].
  - destruct (Nat.leb_spec 13 (List.length (b :: rest))) as [L|L].
    + rewrite parse_section_header_ok;
        cbn [BitString_of_bytes pos bits]; [reflexivity|lia|congruence].
    + set (pad := repeat x00 13).
      pose proof (truncates_parse_section_header (bits_of_bytes (b :: rest))
                    (bits_of_bytes pad) 0) as Tr.
      rewrite Len in Tr.
      assert (H8 : (8 * List.length (b :: rest)) mod 8 = 0).
      { rewrite Nat.mul_comm. apply Nat.Div0.mod_mul. }
      specialize (Tr H8 eq_refl (Nat.le_0_l _)).
      rewrite <- bits_of_bytes_app in Tr.
      rewrite parse_section_header_ok in Tr; cbn [pos bits].
      * cbn [pos seek] in Tr. destruct Tr as [Tr|(_ & _ & Tr & _)]; [exact Tr|lia].
      * rewrite length_bits_of_bytes, length_app. subst pad.
        rewrite repeat_length. lia.
      * change ((b :: rest) ++ pad) with (b :: (rest ++ pad)).
        rewrite uint_at_first_byte. exact T.
  - rewrite <- E. apply parse_section_header_bad_table_id;
      cbn [BitString_of_bytes pos bits]; [cbn [List.length] in Len; lia|congruence].
Qed.
